(** * EditorPanel: the editor session controller and its pure helpers

    A shallow embedding of [web/src/components/EditorPanel.tsx]:
    - [hasChangedDescendant] and the per-node changed indicator of
      [FileTreeNode];
    - the line classification of [DiffView];
    - [relativeChangedFiles], the sidebar list;
    - the controller itself: React state, the debounce timer held in
      [saveTimerRef], the promises of the repository service, and the
      effects keyed on [openFilePath], as a transition function over an
      explicit event-loop state.

    JavaScript strings are read as [string]; a [Set<string>] is the list of
    its elements in insertion order, which is the order the spread
    [[...changedFiles]] iterates in.

    Left out: the fetch of the file tree (lines 220-227), whose call of
    [getFileTree] is therefore not among the calls the model records, and
    the guard on [cwd] around the whole panel; they share no state with the
    controller. [localeCompare] is a built-in of the runtime and stays a
    parameter. *)

From Stdlib Require Import Ascii String.
From stdpp Require Import gmap strings list sorting.

Local Open Scope string_scope.
Local Open Scope list_scope.
Local Open Scope N_scope.

(** ** Strings *)

Module Js.

(** [s.startsWith(p)] *)
Definition startsWith (s p : string) : bool := String.prefix p s.

(** [s.slice(n)] for [0 <= n] *)
Fixpoint slice (n : nat) (s : string) : string :=
  match n, s with
  | O, _ => s
  | S n', String _ rest => slice n' rest
  | S _, EmptyString => EmptyString
  end.

(** [s.split(sep)] for a one-character separator: the pieces between the
    separators, in order; a string without separator is its own single
    piece, the empty string included. *)
Fixpoint split (sep : ascii) (s : string) : list string :=
  match s with
  | EmptyString => [EmptyString]
  | String c rest =>
      if Ascii.eqb c sep then EmptyString :: split sep rest
      else match split sep rest with
           | piece :: pieces => String c piece :: pieces
           | [] => [String c EmptyString]
           end
  end.

(** [pieces.join(sep)] *)
Definition join (sep : ascii) (pieces : list string) : string :=
  String.concat (String sep EmptyString) pieces.

(** Number of occurrences of a character. *)
Fixpoint occurrences (c : ascii) (s : string) : nat :=
  match s with
  | EmptyString => O
  | String d rest => (if Ascii.eqb d c then 1 else 0)%nat + occurrences c rest
  end.

(** Truthiness of a [string | null | undefined] value: [null] and the
    empty string are falsy. *)
Definition truthy (o : option string) : bool :=
  match o with
  | Some (String _ _) => true
  | _ => false
  end.

(** A [Set<string>]: its elements in insertion order. *)
Definition has (set : list string) (x : string) : bool := bool_decide (x ∈ set).

End Js.

Definition newline : ascii := Ascii.ascii_of_nat 10.

(** ** Change propagation in the file tree (lines 90-97, 113-116) *)

Inductive NodeType := file | directory.

Local Unset Elimination Schemes.
Inductive TreeNode := mkTreeNode {
  name : string;
  path : string;
  type : NodeType;
  children : option (list TreeNode)
}.
Local Set Elimination Schemes.

Fixpoint hasChangedDescendant (changedFiles : list string) (node : TreeNode) : bool :=
  if Js.has changedFiles (path node) then true
  else match children node with
       | Some cs => existsb (hasChangedDescendant changedFiles) cs
       | None => false
       end.

Definition isDir (node : TreeNode) : bool :=
  match type node with directory => true | file => false end.

(** [isChanged] of [FileTreeNode]: the file's own mark. *)
Definition isChanged (changedFiles : list string) (node : TreeNode) : bool :=
  negb (isDir node) && Js.has changedFiles (path node).

(** [hasChanged] of [FileTreeNode]: the directory's mark. *)
Definition hasChanged (changedFiles : list string) (node : TreeNode) : bool :=
  isDir node && hasChangedDescendant changedFiles node.

(** The dot is shown when [isChanged || hasChanged]. *)
Definition changedMark (changedFiles : list string) (node : TreeNode) : bool :=
  isChanged changedFiles node || hasChanged changedFiles node.

(** The nodes below a node, at any depth, and the node with them. *)
Fixpoint subtree (node : TreeNode) : list TreeNode :=
  node :: match children node with
          | Some cs => flat_map subtree cs
          | None => []
          end.

Definition descendants (node : TreeNode) : list TreeNode :=
  match children node with
  | Some cs => flat_map subtree cs
  | None => []
  end.

(** ** The diff view (lines 163-184) *)

Inductive Category := addition | deletion | hunkHeader | metadata | context.

(** The class each category is drawn with. *)
Definition className (c : Category) : string :=
  match c with
  | addition => "bg-cc-success/10 text-cc-success"
  | deletion => "bg-cc-error/10 text-cc-error"
  | hunkHeader => "text-cc-primary"
  | metadata => "text-cc-muted"
  | context => "text-cc-fg/60"
  end.

Definition classify (line : string) : Category :=
  if Js.startsWith line "+" && negb (Js.startsWith line "+++") then addition
  else if Js.startsWith line "-" && negb (Js.startsWith line "---") then deletion
  else if Js.startsWith line "@@" then hunkHeader
  else if Js.startsWith line "diff" || Js.startsWith line "index" then metadata
  else context.

(** U+00A0, which stands in for a blank line. *)
Definition nbsp : string :=
  String (Ascii.ascii_of_nat 194) (String (Ascii.ascii_of_nat 160) EmptyString).

Record DiffLine := {
  key : nat;
  category : Category;
  text : string
}.

Definition diffLine (i : nat) (line : string) : DiffLine :=
  {| key := i;
     category := classify line;
     text := if String.eqb line "" then nbsp else line |}.

Inductive DiffRender :=
| NoChanges
| Lines (rows : list DiffLine).

Definition DiffView (diff : string) : DiffRender :=
  if String.eqb diff "" then NoChanges
  else Lines (imap diffLine (Js.split newline diff)).

(** ** The sidebar list of changed files (lines 210-215) *)

Record ChangedEntry := { abs : string; rel : string }.

Definition relativeEntry (cwd fp : string) : ChangedEntry :=
  {| abs := fp;
     rel := if Js.startsWith fp (cwd +:+ "/")
            then Js.slice (String.length cwd + 1) fp
            else fp |}.

Section Sorting.
Context {A : Type}.
(** The comparator handed to [Array.prototype.sort]: negative, zero or
    positive. *)
Variable compareFn : A -> A -> Z.

Fixpoint sortInsert (x : A) (sorted : list A) : list A :=
  match sorted with
  | [] => [x]
  | y :: rest =>
      if (compareFn x y <=? 0)%Z then x :: y :: rest
      else y :: sortInsert x rest
  end.

(** [Array.prototype.sort(compareFn)]: the stable sort; elements that
    compare equal keep their order. *)
Fixpoint sort (l : list A) : list A :=
  match l with
  | [] => []
  | x :: rest => sortInsert x (sort rest)
  end.
End Sorting.

Section RelativeChangedFiles.
(** [String.prototype.localeCompare], the collation of the runtime. *)
Variable localeCompare : string -> string -> Z.

Definition relativeChangedFiles
    (changedFiles : list string) (cwd : option string) : list ChangedEntry :=
  match cwd with
  | Some dir =>
      if (length changedFiles =? 0)%nat || negb (Js.truthy cwd) then []
      else sort (fun a b => localeCompare (rel a) (rel b))
                (map (relativeEntry dir) changedFiles)
  | None => []
  end.
End RelativeChangedFiles.

(** Comparison of strings character by character, by character code. *)
Definition lexCompare (a b : string) : Z :=
  match String.compare a b with
  | Lt => (-1)%Z
  | Eq => 0%Z
  | Gt => 1%Z
  end.

(** ** The controller (lines 186-299) *)

Inductive SaveStatus := saved | saving | dirty.

(** The two closures handed to [setTimeout]: the debounced save, with the
    [openFilePath] and the [value] it closed over (lines 253-262), and the
    reset of the status display (line 258). *)
Inductive Callback :=
| SaveCb (path : option string) (value : string)
| ClearStatusCb.

Record Timer := { tid : positive; due : N; cb : Callback }.

(** A call of the repository service; while its promise is pending it
    stands for the continuation that waits on it. *)
Inductive Request :=
| readFile (path : string)
| writeFile (path : option string) (content : string)
| getFileDiff (path : string).

(** How a promise settles: fulfilled with the string of the payload
    ([content], [diff]; nothing is read from the answer of [writeFile]), or
    rejected. *)
Inductive Settled :=
| Fulfilled (payload : string)
| Rejected.

(** The state of one mounted panel: the two store slices it selects, its
    React state, the ref, and the event loop around it: the clock in
    milliseconds, the timer queue by due time, and the pending promises.
    [calls] keeps the service calls in the order they were made and
    [statusTrace] the successive values of [saveStatus]. *)
Record State := {
  openFilePath : option string;
  changedFiles : list string;
  fileContent : string;
  savedContent : string;
  fileLoading : bool;
  saveTimerRef : option positive;
  saveStatus : option SaveStatus;
  diffMode : bool;
  diffContent : string;
  diffLoading : bool;
  clock : N;
  nextId : positive;
  timers : list Timer;
  pending : gmap positive Request;
  calls : list Request;
  statusTrace : list (option SaveStatus)
}.

#[global] Instance SaveStatus_eq_dec : EqDecision SaveStatus.
Proof. solve_decision. Defined.

#[global] Instance Callback_eq_dec : EqDecision Callback.
Proof. solve_decision. Defined.

Definition withOpenFilePath (v : option string) (s : State) : State :=
  {| openFilePath := v; changedFiles := changedFiles s;
     fileContent := fileContent s; savedContent := savedContent s;
     fileLoading := fileLoading s; saveTimerRef := saveTimerRef s;
     saveStatus := saveStatus s; diffMode := diffMode s;
     diffContent := diffContent s; diffLoading := diffLoading s;
     clock := clock s; nextId := nextId s; timers := timers s;
     pending := pending s; calls := calls s; statusTrace := statusTrace s |}.

Definition withChangedFiles (v : list string) (s : State) : State :=
  {| openFilePath := openFilePath s; changedFiles := v;
     fileContent := fileContent s; savedContent := savedContent s;
     fileLoading := fileLoading s; saveTimerRef := saveTimerRef s;
     saveStatus := saveStatus s; diffMode := diffMode s;
     diffContent := diffContent s; diffLoading := diffLoading s;
     clock := clock s; nextId := nextId s; timers := timers s;
     pending := pending s; calls := calls s; statusTrace := statusTrace s |}.

Definition setFileContent (v : string) (s : State) : State :=
  {| openFilePath := openFilePath s; changedFiles := changedFiles s;
     fileContent := v; savedContent := savedContent s;
     fileLoading := fileLoading s; saveTimerRef := saveTimerRef s;
     saveStatus := saveStatus s; diffMode := diffMode s;
     diffContent := diffContent s; diffLoading := diffLoading s;
     clock := clock s; nextId := nextId s; timers := timers s;
     pending := pending s; calls := calls s; statusTrace := statusTrace s |}.

Definition setSavedContent (v : string) (s : State) : State :=
  {| openFilePath := openFilePath s; changedFiles := changedFiles s;
     fileContent := fileContent s; savedContent := v;
     fileLoading := fileLoading s; saveTimerRef := saveTimerRef s;
     saveStatus := saveStatus s; diffMode := diffMode s;
     diffContent := diffContent s; diffLoading := diffLoading s;
     clock := clock s; nextId := nextId s; timers := timers s;
     pending := pending s; calls := calls s; statusTrace := statusTrace s |}.

Definition setFileLoading (v : bool) (s : State) : State :=
  {| openFilePath := openFilePath s; changedFiles := changedFiles s;
     fileContent := fileContent s; savedContent := savedContent s;
     fileLoading := v; saveTimerRef := saveTimerRef s;
     saveStatus := saveStatus s; diffMode := diffMode s;
     diffContent := diffContent s; diffLoading := diffLoading s;
     clock := clock s; nextId := nextId s; timers := timers s;
     pending := pending s; calls := calls s; statusTrace := statusTrace s |}.

Definition setSaveTimerRef (v : option positive) (s : State) : State :=
  {| openFilePath := openFilePath s; changedFiles := changedFiles s;
     fileContent := fileContent s; savedContent := savedContent s;
     fileLoading := fileLoading s; saveTimerRef := v;
     saveStatus := saveStatus s; diffMode := diffMode s;
     diffContent := diffContent s; diffLoading := diffLoading s;
     clock := clock s; nextId := nextId s; timers := timers s;
     pending := pending s; calls := calls s; statusTrace := statusTrace s |}.

Definition setDiffMode (v : bool) (s : State) : State :=
  {| openFilePath := openFilePath s; changedFiles := changedFiles s;
     fileContent := fileContent s; savedContent := savedContent s;
     fileLoading := fileLoading s; saveTimerRef := saveTimerRef s;
     saveStatus := saveStatus s; diffMode := v; diffContent := diffContent s;
     diffLoading := diffLoading s; clock := clock s; nextId := nextId s;
     timers := timers s; pending := pending s; calls := calls s;
     statusTrace := statusTrace s |}.

Definition setDiffContent (v : string) (s : State) : State :=
  {| openFilePath := openFilePath s; changedFiles := changedFiles s;
     fileContent := fileContent s; savedContent := savedContent s;
     fileLoading := fileLoading s; saveTimerRef := saveTimerRef s;
     saveStatus := saveStatus s; diffMode := diffMode s; diffContent := v;
     diffLoading := diffLoading s; clock := clock s; nextId := nextId s;
     timers := timers s; pending := pending s; calls := calls s;
     statusTrace := statusTrace s |}.

Definition setDiffLoading (v : bool) (s : State) : State :=
  {| openFilePath := openFilePath s; changedFiles := changedFiles s;
     fileContent := fileContent s; savedContent := savedContent s;
     fileLoading := fileLoading s; saveTimerRef := saveTimerRef s;
     saveStatus := saveStatus s; diffMode := diffMode s;
     diffContent := diffContent s; diffLoading := v; clock := clock s;
     nextId := nextId s; timers := timers s; pending := pending s;
     calls := calls s; statusTrace := statusTrace s |}.

Definition withTimers (v : list Timer) (s : State) : State :=
  {| openFilePath := openFilePath s; changedFiles := changedFiles s;
     fileContent := fileContent s; savedContent := savedContent s;
     fileLoading := fileLoading s; saveTimerRef := saveTimerRef s;
     saveStatus := saveStatus s; diffMode := diffMode s;
     diffContent := diffContent s; diffLoading := diffLoading s;
     clock := clock s; nextId := nextId s; timers := v; pending := pending s;
     calls := calls s; statusTrace := statusTrace s |}.

Definition withPending (v : gmap positive Request) (s : State) : State :=
  {| openFilePath := openFilePath s; changedFiles := changedFiles s;
     fileContent := fileContent s; savedContent := savedContent s;
     fileLoading := fileLoading s; saveTimerRef := saveTimerRef s;
     saveStatus := saveStatus s; diffMode := diffMode s;
     diffContent := diffContent s; diffLoading := diffLoading s;
     clock := clock s; nextId := nextId s; timers := timers s;
     pending := v; calls := calls s; statusTrace := statusTrace s |}.

Definition withClock (v : N) (s : State) : State :=
  {| openFilePath := openFilePath s; changedFiles := changedFiles s;
     fileContent := fileContent s; savedContent := savedContent s;
     fileLoading := fileLoading s; saveTimerRef := saveTimerRef s;
     saveStatus := saveStatus s; diffMode := diffMode s;
     diffContent := diffContent s; diffLoading := diffLoading s;
     clock := v; nextId := nextId s; timers := timers s;
     pending := pending s; calls := calls s; statusTrace := statusTrace s |}.

(** [setSaveStatus]; a value different from the current one is a
    transition and is appended to the trace. *)
Definition setSaveStatus (v : option SaveStatus) (s : State) : State :=
  {| openFilePath := openFilePath s; changedFiles := changedFiles s;
     fileContent := fileContent s; savedContent := savedContent s;
     fileLoading := fileLoading s; saveTimerRef := saveTimerRef s;
     saveStatus := v; diffMode := diffMode s; diffContent := diffContent s;
     diffLoading := diffLoading s; clock := clock s; nextId := nextId s;
     timers := timers s; pending := pending s; calls := calls s;
     statusTrace := if decide (v = saveStatus s) then statusTrace s
                    else statusTrace s ++ [v] |}.

(** [setTimeout(cb, delay)]: the handle is fresh, the timer is queued behind
    those due no later than it. *)
Fixpoint enqueue (t : Timer) (queue : list Timer) : list Timer :=
  match queue with
  | [] => [t]
  | u :: rest => if due u <=? due t then u :: enqueue t rest else t :: u :: rest
  end.

Definition setTimeout (f : Callback) (delay : N) (s : State) : State :=
  let t := {| tid := nextId s; due := clock s + delay; cb := f |} in
  {| openFilePath := openFilePath s; changedFiles := changedFiles s;
     fileContent := fileContent s; savedContent := savedContent s;
     fileLoading := fileLoading s; saveTimerRef := saveTimerRef s;
     saveStatus := saveStatus s; diffMode := diffMode s;
     diffContent := diffContent s; diffLoading := diffLoading s;
     clock := clock s; nextId := Pos.succ (nextId s);
     timers := enqueue t (timers s); pending := pending s;
     calls := calls s; statusTrace := statusTrace s |}.

(** [clearTimeout(id)] *)
Definition clearTimeout (id : positive) (s : State) : State :=
  withTimers (filter (fun t => tid t <> id) (timers s)) s.

(** Calling the service: the call is recorded and its promise is pending. *)
Definition call (r : Request) (s : State) : State :=
  {| openFilePath := openFilePath s; changedFiles := changedFiles s;
     fileContent := fileContent s; savedContent := savedContent s;
     fileLoading := fileLoading s; saveTimerRef := saveTimerRef s;
     saveStatus := saveStatus s; diffMode := diffMode s;
     diffContent := diffContent s; diffLoading := diffLoading s;
     clock := clock s; nextId := Pos.succ (nextId s); timers := timers s;
     pending := <[nextId s := r]> (pending s); calls := calls s ++ [r];
     statusTrace := statusTrace s |}.

Definition SAVE_DELAY : N := 800.
Definition SAVED_DISPLAY : N := 2000.
Definition LOAD_ERROR : string := "// Error loading file".

(** [isDirty] (line 217) *)
Definition isDirty (s : State) : bool :=
  bool_decide (fileContent s <> savedContent s)
  && bool_decide (openFilePath s <> None).

(** [handleChange] (lines 246-263); a timer handle is never falsy. *)
Definition handleChange (value : string) (s : State) : State :=
  let s := setFileContent value s in
  let s := setSaveStatus (Some dirty) s in
  let s := match saveTimerRef s with
           | Some id => clearTimeout id s
           | None => s
           end in
  if negb (Js.truthy (openFilePath s)) then s
  else
    let id := nextId s in
    let s := setTimeout (SaveCb (openFilePath s) value) SAVE_DELAY s in
    setSaveTimerRef (Some id) s.

(** A timer fires. *)
Definition fire (s : State) (f : Callback) : State :=
  match f with
  | SaveCb path value =>
      let s := setSaveStatus (Some saving) s in
      call (writeFile path value) s
  | ClearStatusCb => setSaveStatus None s
  end.

(** A promise settles and its continuation runs. *)
Definition settle (r : Request) (o : Settled) (s : State) : State :=
  match r, o with
  | readFile _, Fulfilled content =>
      setFileLoading false (setSavedContent content (setFileContent content s))
  | readFile _, Rejected =>
      setFileLoading false (setSavedContent "" (setFileContent LOAD_ERROR s))
  | writeFile _ value, Fulfilled _ =>
      let s := setSavedContent value s in
      let s := setSaveStatus (Some saved) s in
      setTimeout ClearStatusCb SAVED_DISPLAY s
  | writeFile _ _, Rejected => setSaveStatus (Some dirty) s
  | getFileDiff _, Fulfilled diff => setDiffLoading false (setDiffContent diff s)
  | getFileDiff _, Rejected => setDiffLoading false (setDiffContent "" s)
  end.

Definition resolve (id : positive) (o : Settled) (s : State) : State :=
  match pending s !! id with
  | Some r => settle r o (withPending (delete id (pending s)) s)
  | None => s
  end.

(** The effect that loads the file (lines 230-243). *)
Definition loadFileEffect (s : State) : State :=
  match openFilePath s with
  | Some p =>
      if negb (Js.truthy (openFilePath s)) then s
      else call (readFile p) (setSaveStatus None (setFileLoading true s))
  | None => s
  end.

(** The effect that fetches the diff (lines 276-283); [mode] is the
    [diffMode] of the render whose effects are running. *)
Definition diffFetchEffect (mode : bool) (s : State) : State :=
  match openFilePath s with
  | Some p =>
      if negb mode || negb (Js.truthy (openFilePath s))
         || negb (Js.has (changedFiles s) p) then s
      else call (getFileDiff p) (setDiffLoading true s)
  | None => s
  end.

(** The store hands the panel another [openFilePath]. The render that sees
    it still has the old [diffMode]; its effects run in source order: the
    load (230), the reset of the diff mode (273), the diff fetch (276). The
    render that follows has [diffMode = false], for which the diff fetch
    returns at its guard. *)
Definition openFileChanged (p : option string) (s : State) : State :=
  if decide (p = openFilePath s) then s
  else
    let mode := diffMode s in
    let s := withOpenFilePath p s in
    let s := loadFileEffect s in
    let s := setDiffMode false s in
    diffFetchEffect mode s.

(** The store hands the panel another set of changed files, which re-runs
    the diff fetch. *)
Definition changedFilesChanged (cf : list string) (s : State) : State :=
  diffFetchEffect (diffMode s) (withChangedFiles cf s).

(** The Edit and Diff buttons (lines 381, 389). *)
Definition clickDiffMode (b : bool) (s : State) : State :=
  if decide (b = diffMode s) then s
  else diffFetchEffect b (setDiffMode b s).

(** [d] milliseconds pass: the timers that have come due fire in queue
    order. *)
Definition advance (d : N) (s : State) : State :=
  let now := clock s + d in
  let ready := filter (fun t => due t <= now) (timers s) in
  let later := filter (fun t => now < due t) (timers s) in
  foldl fire (withClock now (withTimers later s)) (cb <$> ready).

(** The first render of a panel whose store slices are [p] and [cf], and
    its effects. *)
Definition mount (p : option string) (cf : list string) : State :=
  let s :=
    {| openFilePath := p; changedFiles := cf; fileContent := "";
       savedContent := ""; fileLoading := false; saveTimerRef := None;
       saveStatus := None; diffMode := false; diffContent := "";
       diffLoading := false; clock := 0; nextId := 1%positive; timers := [];
       pending := ∅; calls := []; statusTrace := [] |} in
  diffFetchEffect false (setDiffMode false (loadFileEffect s)).

(** What happens to a mounted panel. *)
Inductive Event :=
| OpenFile (p : option string)
| ChangedFiles (cf : list string)
| Edit (value : string)
| ClickDiffMode (b : bool)
| Advance (d : N)
| Settle (id : positive) (o : Settled).

Definition step (s : State) (e : Event) : State :=
  match e with
  | OpenFile p => openFileChanged p s
  | ChangedFiles cf => changedFilesChanged cf s
  | Edit value => handleChange value s
  | ClickDiffMode b => clickDiffMode b s
  | Advance d => advance d s
  | Settle id o => resolve id o s
  end.

Definition run (es : list Event) (s : State) : State := foldl step s es.

Definition reachable (s : State) : Prop :=
  exists p cf es, s = run es (mount p cf).

(** [handleFileSelect] (lines 285-287).
    Modelled from the spec: [setEditorOpenFile] of store.js, not among the
    sources; selecting a file writes the path to the store and the panel
    observes it as its [openFilePath]. *)
Definition handleFileSelect (path : string) (s : State) : State :=
  openFileChanged (Some path) s.

(** The editor area (lines 403-436). *)
Inductive EditorArea :=
| Placeholder
| Spinner
| ShowDiff (r : DiffRender)
| ShowEditor (value : string).

Definition editorArea (s : State) : EditorArea :=
  match openFilePath s with
  | Some p =>
      if negb (Js.truthy (openFilePath s)) then Placeholder
      else if fileLoading s || diffLoading s then Spinner
      else if diffMode s && Js.has (changedFiles s) p
           then ShowDiff (DiffView (diffContent s))
      else ShowEditor (fileContent s)
  | None => Placeholder
  end.

(** The debounce timers in the queue, and the writes made so far. *)
Definition isSave (t : Timer) : Prop :=
  match cb t with SaveCb _ _ => True | ClearStatusCb => False end.

#[global] Instance isSave_dec t : Decision (isSave t).
Proof. unfold isSave. destruct (cb t); apply _. Defined.

Definition saveTimers (s : State) : list Timer := filter isSave (timers s).

Definition asWrite (r : Request) : option (option string * string) :=
  match r with
  | writeFile p v => Some (p, v)
  | _ => None
  end.

Definition writes (s : State) : list (option string * string) :=
  omap asWrite (calls s).

Definition isEdit (e : Event) : Prop :=
  match e with Edit _ => True | _ => False end.

(** The write a timer makes when it fires. *)
Definition timerWrite (t : Timer) : option (option string * string) :=
  match cb t with
  | SaveCb p v => Some (p, v)
  | ClearStatusCb => None
  end.

(** What holds of every state a mounted panel can be in: a debounce timer
    in the queue is the one [saveTimerRef] holds, and was armed with a path;
    every write was made with a path. *)
Record Consistent (s : State) : Prop := {
  saves_by_ref :
    forall t, t ∈ saveTimers s -> saveTimerRef s = Some (tid t);
  saves_have_path :
    forall t p v, t ∈ saveTimers s -> cb t = SaveCb p v -> Js.truthy p = true;
  writes_have_path :
    forall p v, (p, v) ∈ writes s -> Js.truthy p = true
}.

(** The course of one save as the status line shows it: the edit, the
    debounce window, the write, fulfilled [latency] ms after it was made,
    and the display window, with nothing else happening meanwhile. *)
Definition saveCourse (latency : N) (value : string) (s : State) : Prop :=
  let s1 := handleChange value s in
  let s2 := advance SAVE_DELAY s1 in
  let s3 := resolve (nextId s1) (Fulfilled "") (advance latency s2) in
  let s4 := advance SAVED_DISPLAY s3 in
  saveStatus s1 = Some dirty /\
  saveStatus s2 = Some saving /\
  pending (advance latency s2) !! nextId s1
    = Some (writeFile (openFilePath s) value) /\
  saveStatus s3 = Some saved /\
  savedContent s3 = value /\
  (forall d, d < SAVED_DISPLAY -> saveStatus (advance d s3) = Some saved) /\
  saveStatus s4 = None /\
  statusTrace s4 = statusTrace s1 ++ [Some saving; Some saved; None].

(** A burst of typing after a first edit: each entry lets [gap] ms pass and
    then edits the buffer to [value]. *)
Definition typing (edits : list (N * string)) : list Event :=
  edits ≫= (fun e => [Advance e.1; Edit e.2]).

(** The value the buffer holds after the first edit [value] and a burst. *)
Definition lastValue (value : string) (edits : list (N * string)) : string :=
  default value (last edits.*2).

(** A panel on /repo/file.ts whose first save succeeded 1900 ms ago: the
    timer that will take the "Saved" mark away is still in the queue. *)
Definition recentlySaved : State :=
  run [ Settle 1%positive (Fulfilled "file content");
        Edit "a";
        Advance 800;
        Advance 40;
        Settle 3%positive (Fulfilled "");
        Advance 1900 ]
      (mount (Some "/repo/file.ts") []).

(** A small tree: /repo holds src, which holds app.ts, and an empty
    directory. *)
Definition appFile : TreeNode :=
  mkTreeNode "app.ts" "/repo/src/app.ts" file None.

Definition exampleTree : TreeNode :=
  mkTreeNode "repo" "/repo" directory
    (Some [ mkTreeNode "src" "/repo/src" directory (Some [appFile]);
            mkTreeNode "empty" "/repo/empty" directory (Some []) ]).

(** [line] begins with [p]. *)
Definition starts (line p : string) : Prop := exists r, line = p +:+ r.

(** The test diff of the component's test suite. *)
Definition exampleDiff : string :=
  Js.join newline
    ["diff --git a/f.ts b/f.ts"; "@@ -1,2 +1,2 @@"; " context"; "-removed";
     "+added"].

(** ** The language of the open file (lines 39-68, 289-299) *)

(** [c.toLowerCase()] on one character. Only A to Z change; no other
    character lower-cases to a letter of the extensions below, so the switch
    of [getLanguageExtension] sees the same thing. *)
Definition lowerChar (c : ascii) : ascii :=
  let n := nat_of_ascii c in
  if (65 <=? n)%nat && (n <=? 90)%nat then ascii_of_nat (n + 32) else c.

(** [s.toLowerCase()] *)
Fixpoint toLowerCase (s : string) : string :=
  match s with
  | EmptyString => EmptyString
  | String c rest => String (lowerChar c) (toLowerCase rest)
  end.

(** What the language packages are called with: [javascript({ jsx,
    typescript })], [json()], [python()], [html()], [css()], [markdown()]. *)
Inductive Language :=
| javascript (jsx typescript : bool)
| json
| python
| html
| css
| markdown.

(** The [switch] of [getLanguageExtension]. *)
Definition languageOfExtension (ext : string) : option Language :=
  if String.eqb ext "js" || String.eqb ext "jsx" || String.eqb ext "mjs"
  then Some (javascript true false)
  else if String.eqb ext "ts" || String.eqb ext "tsx" || String.eqb ext "mts"
  then Some (javascript true true)
  else if String.eqb ext "json" then Some json
  else if String.eqb ext "py" then Some python
  else if String.eqb ext "html" || String.eqb ext "htm"
          || String.eqb ext "svelte" || String.eqb ext "vue"
  then Some html
  else if String.eqb ext "css" || String.eqb ext "scss" then Some css
  else if String.eqb ext "md" || String.eqb ext "mdx" then Some markdown
  else None.

(** [filename.split(".").pop()?.toLowerCase()] and the switch on it. *)
Definition getLanguageExtension (filename : string) : option Language :=
  match toLowerCase <$> last (Js.split "."%char filename) with
  | Some ext => languageOfExtension ext
  | None => None
  end.

(** [openFilePath?.split("/").pop() ?? null] (line 289) *)
Definition fileName (openFilePath : option string) : option string :=
  match openFilePath with
  | Some p => last (Js.split "/"%char p)
  | None => None
  end.

Inductive Extension :=
| warmTheme
| oneDark
| language (l : Language).

(** The extensions handed to the editor (lines 291-299). *)
Definition extensions (darkMode : bool) (openFilePath : option string)
    : list Extension :=
  [warmTheme]
  ++ (if darkMode then [oneDark] else [])
  ++ (if Js.truthy (fileName openFilePath)
      then match fileName openFilePath with
           | Some f => match getLanguageExtension f with
                       | Some l => [language l]
                       | None => []
                       end
           | None => []
           end
      else []).

(** The cleanup that runs when the panel is unmounted (lines 266-270). *)
Definition unmount (s : State) : State :=
  match saveTimerRef s with
  | Some id => clearTimeout id s
  | None => s
  end.

(** The values the edits of a run put in the buffer. *)
Definition editedValues (es : list Event) : list string :=
  omap (fun e => match e with Edit v => Some v | _ => None end) es.

(** The values written so far, in order, and behind them the value the
    pending debounce timer holds. *)
Definition heldValues (s : State) : list string :=
  (writes s ++ omap timerWrite (saveTimers s)).*2.

(** ** The course of one save *)

(** No write is pending, or only the one with handle [w]. *)
Definition onlyWrite (w : option positive) (s : State) : Prop :=
  forall id p v, pending s !! id = Some (writeFile p v) -> w = Some id.

(** A panel on which no save is under way as far as the status line goes:
    no timer of the status display is in the queue and no write is
    pending. *)
Definition atRest (s : State) : Prop :=
  Forall isSave (timers s) /\ onlyWrite None s.

(** Where a save stands after the edit: the debounce timer is pending; the
    write is pending under handle [w]; the write succeeded and the display
    timer is due at [until]; the display timer has fired, at or after
    [since]; the write failed. *)
Inductive Phase :=
| waiting
| inFlight (w : positive)
| showing (until : N)
| cleared (since : N)
| failed.

(** What holds of the panel in each phase of the save of [value] to [path]
    whose debounce timer is due at [deadline], on a status trace that was
    [trace] at the edit. *)
Definition inPhase (trace : list (option SaveStatus)) (path value : string)
    (deadline : N) (ph : Phase) (s : State) : Prop :=
  match ph with
  | waiting =>
      saveStatus s = Some dirty /\ statusTrace s = trace /\
      (exists id, timers s = [ {| tid := id; due := deadline;
                                  cb := SaveCb (Some path) value |} ]) /\
      clock s < deadline /\ onlyWrite None s
  | inFlight w =>
      saveStatus s = Some saving /\
      statusTrace s = trace ++ [Some saving] /\
      timers s = [] /\ deadline <= clock s /\
      pending s !! w = Some (writeFile (Some path) value) /\
      onlyWrite (Some w) s /\ (w < nextId s)%positive
  | showing until =>
      saveStatus s = Some saved /\
      statusTrace s = trace ++ [Some saving; Some saved] /\
      (exists id, timers s = [ {| tid := id; due := until;
                                  cb := ClearStatusCb |} ]) /\
      deadline <= clock s /\ clock s < until /\ onlyWrite None s
  | cleared since =>
      saveStatus s = None /\
      statusTrace s = trace ++ [Some saving; Some saved; None] /\
      timers s = [] /\ deadline <= clock s /\ since <= clock s /\
      onlyWrite None s
  | failed =>
      saveStatus s = Some dirty /\
      statusTrace s = trace ++ [Some saving; Some dirty] /\
      timers s = [] /\ deadline <= clock s /\ onlyWrite None s
  end.

(** The events that leave a save to itself: no edit, and no change of the
    open file. *)
Definition calm (e : Event) : Prop :=
  match e with
  | Edit _ | OpenFile _ => False
  | _ => True
  end.

(** How an event moves a save from phase to phase. *)
Definition phaseStep (deadline : N) (s : State) (ph : Phase) (e : Event)
    : Phase :=
  match ph, e with
  | waiting, Advance d =>
      if decide (clock s + d < deadline) then waiting else inFlight (nextId s)
  | inFlight w, Settle id o =>
      if decide (id = w)
      then match o with
           | Fulfilled _ => showing (clock s + SAVED_DISPLAY)
           | Rejected => failed
           end
      else inFlight w
  | showing until, Advance d =>
      if decide (clock s + d < until) then showing until else cleared until
  | _, _ => ph
  end.

Fixpoint phaseRun (deadline : N) (s : State) (ph : Phase) (es : list Event)
    : Phase :=
  match es with
  | [] => ph
  | e :: rest => phaseRun deadline (step s e) (phaseStep deadline s ph e) rest
  end.

(** ** A comparator of the kind the runtime has *)

(** Letters are compared whatever their case; case is looked at only
    between names that are the same but for case, lower case first. On
    names made of letters, digits, dots and slashes this is the order of the
    runtime's comparator: a.ts comes before Z.ts. It stands for that
    comparator where a concrete one is called for. *)
Definition foldCompare (a b : string) : Z :=
  match String.compare (toLowerCase a) (toLowerCase b) with
  | Lt => (-1)%Z
  | Gt => 1%Z
  | Eq => lexCompare b a
  end.

(** * Properties *)

(** ** Strings *)

Lemma append_cons (c : ascii) (p r : string) :
  String c p +:+ r = String c (p +:+ r).
Proof. reflexivity. Qed.

Lemma append_nil (r : string) : "" +:+ r = r.
Proof. reflexivity. Qed.

Lemma startsWith_spec (s p : string) :
  Js.startsWith s p = true <-> exists r, s = p +:+ r.
Proof.
  unfold Js.startsWith. revert s.
  induction p as [|c p IH]; intros s.
  - split; [intros _; exists s; reflexivity | intros _; destruct s; reflexivity].
  - destruct s as [|d s]; simpl.
    + split; [discriminate | intros [r Hr]; discriminate].
    + destruct (Ascii.ascii_dec c d) as [->|Hne].
      * rewrite IH. split; intros [r Hr]; exists r;
          rewrite append_cons in *; congruence.
      * split; [discriminate |].
        intros [r Hr]. rewrite append_cons in Hr. congruence.
Qed.

Lemma slice_app (p r : string) : Js.slice (String.length p) (p +:+ r) = r.
Proof.
  induction p as [|c p IH]; [destruct r; reflexivity |].
  rewrite append_cons. exact IH.
Qed.

Lemma length_app_one (p : string) (c : ascii) :
  String.length (p +:+ String c EmptyString) = (String.length p + 1)%nat.
Proof.
  induction p as [|d p IH]; [reflexivity |].
  rewrite append_cons. simpl. now rewrite IH.
Qed.

Lemma app_assoc_one (p : string) (c : ascii) (r : string) :
  (p +:+ String c EmptyString) +:+ r = p +:+ String c r.
Proof.
  induction p as [|d p IH]; [reflexivity |].
  rewrite !append_cons. now rewrite IH.
Qed.

Lemma split_not_nil (sep : ascii) (s : string) : Js.split sep s <> [].
Proof.
  destruct s as [|c s]; simpl; [discriminate |].
  destruct (Ascii.eqb c sep); [discriminate |].
  destruct (Js.split sep s); discriminate.
Qed.

Lemma join_cons (sep : ascii) (x : string) (xs : list string) :
  xs <> [] ->
  Js.join sep (x :: xs) = x +:+ String sep (Js.join sep xs).
Proof. destruct xs; [congruence | reflexivity]. Qed.

Lemma join_split (sep : ascii) (s : string) : Js.join sep (Js.split sep s) = s.
Proof.
  induction s as [|c s IH]; simpl; [reflexivity |].
  destruct (Ascii.eqb_spec c sep) as [->|Hne].
  - rewrite join_cons by apply split_not_nil. now rewrite append_nil, IH.
  - pose proof (split_not_nil sep s) as Hnil.
    destruct (Js.split sep s) as [|piece pieces]; [congruence |].
    destruct pieces as [|q pieces].
    + unfold Js.join in *. simpl in *. congruence.
    + rewrite join_cons in IH by discriminate.
      rewrite join_cons by discriminate. now rewrite append_cons, IH.
Qed.

Lemma length_split (sep : ascii) (s : string) :
  length (Js.split sep s) = S (Js.occurrences sep s).
Proof.
  induction s as [|c s IH]; simpl; [reflexivity |].
  destruct (Ascii.eqb c sep); simpl; [now rewrite IH |].
  pose proof (split_not_nil sep s) as Hnil.
  destruct (Js.split sep s); [congruence | simpl in *; exact IH].
Qed.

(** ** The file tree *)

Section TreeNode_induction.
Variable P : TreeNode -> Prop.
Hypothesis step_node : forall n p t cs,
  match cs with Some l => Forall P l | None => True end ->
  P (mkTreeNode n p t cs).

Fixpoint TreeNode_ind (node : TreeNode) : P node :=
  match node with
  | mkTreeNode n p t cs =>
      step_node n p t cs
        match cs with
        | Some l =>
            (fix all (l : list TreeNode) : Forall P l :=
               match l with
               | [] => @List.Forall_nil _ P
               | c :: l' => @List.Forall_cons _ P c l' (TreeNode_ind c) (all l')
               end) l
        | None => I
        end
  end.
End TreeNode_induction.

Lemma subtree_self (node : TreeNode) : node ∈ subtree node.
Proof. destruct node; simpl. apply list_elem_of_here. Qed.

Lemma subtree_split (node m : TreeNode) :
  m ∈ subtree node <-> m = node \/ m ∈ descendants node.
Proof. destruct node; unfold descendants; simpl. apply elem_of_cons. Qed.

Lemma descendants_spec (node m : TreeNode) :
  m ∈ descendants node <->
  exists cs c, children node = Some cs /\ c ∈ cs /\ m ∈ subtree c.
Proof.
  unfold descendants. destruct (children node) as [cs|].
  - rewrite list_elem_of_In, in_flat_map. split.
    + intros (c & Hc & Hm). exists cs, c.
      rewrite !list_elem_of_In. auto.
    + intros (cs' & c & Heq & Hc & Hm). injection Heq as <-.
      exists c. rewrite <- !list_elem_of_In. auto.
  - split; [intros H; inversion H | intros (? & ? & ? & _); discriminate].
Qed.

Lemma subtree_trans (a b c : TreeNode) :
  a ∈ subtree b -> b ∈ subtree c -> a ∈ subtree c.
Proof.
  revert a b. induction c as [n p t cs IH] using TreeNode_ind.
  intros a b Hab Hbc.
  apply subtree_split in Hbc as [->|Hbc]; [exact Hab |].
  apply subtree_split. right.
  apply descendants_spec in Hbc as (l & c & Hl & Hc & Hb). simpl in Hl.
  apply descendants_spec. exists l, c. repeat split; try assumption.
  subst cs. rewrite Forall_forall in IH.
  eapply IH; eassumption.
Qed.

Lemma hasChangedDescendant_subtree (changedFiles : list string) (node : TreeNode) :
  hasChangedDescendant changedFiles node = true <->
  exists m, m ∈ subtree node /\ path m ∈ changedFiles.
Proof.
  induction node as [n p t cs IH] using TreeNode_ind.
  simpl. unfold Js.has. case_bool_decide as Hp.
  - split; [intros _ | reflexivity].
    exists (mkTreeNode n p t cs). split; [apply list_elem_of_here | exact Hp].
  - destruct cs as [l|].
    + rewrite Forall_forall in IH.
      rewrite existsb_exists. split.
      * intros (c & Hc & Hch). apply list_elem_of_In in Hc.
        apply (IH c Hc) in Hch as (m & Hm & Hin).
        exists m. split; [|exact Hin].
        apply elem_of_cons. right.
        apply list_elem_of_In, in_flat_map. exists c.
        rewrite <- !list_elem_of_In. auto.
      * intros (m & Hm & Hin).
        apply elem_of_cons in Hm as [->|Hm]; [contradiction |].
        apply list_elem_of_In, in_flat_map in Hm as (c & Hc & Hm).
        rewrite <- !list_elem_of_In in *.
        exists c. rewrite <- list_elem_of_In. split; [exact Hc |].
        apply (IH c Hc). eauto.
    + split; [discriminate |].
      intros (m & Hm & Hin).
      apply elem_of_cons in Hm as [->|Hm]; [contradiction | inversion Hm].
Qed.

Lemma changedMark_file (changedFiles : list string) (node : TreeNode) :
  type node = file ->
  (changedMark changedFiles node = true <-> path node ∈ changedFiles).
Proof.
  intros Ht. unfold changedMark, isChanged, hasChanged, isDir, Js.has.
  rewrite Ht. simpl. rewrite orb_false_r. apply bool_decide_eq_true.
Qed.

Lemma changedMark_directory (changedFiles : list string) (node : TreeNode) :
  type node = directory ->
  (changedMark changedFiles node = true <->
   exists m, m ∈ subtree node /\ path m ∈ changedFiles).
Proof.
  intros Ht. unfold changedMark, isChanged, hasChanged, isDir.
  rewrite Ht. simpl. apply hasChangedDescendant_subtree.
Qed.

Lemma changedMark_own_path (changedFiles : list string) (node : TreeNode) :
  path node ∈ changedFiles -> changedMark changedFiles node = true.
Proof.
  intros Hp. destruct (type node) eqn:Ht.
  - now apply changedMark_file.
  - apply changedMark_directory; [exact Ht |].
    exists node. split; [apply subtree_self | exact Hp].
Qed.

Lemma changedMark_subtree (changedFiles : list string) (node : TreeNode) :
  changedMark changedFiles node = true ->
  exists m, m ∈ subtree node /\ path m ∈ changedFiles.
Proof.
  intros H. destruct (type node) eqn:Ht.
  - apply changedMark_file in H; [|exact Ht].
    exists node. split; [apply subtree_self | exact H].
  - now apply changedMark_directory in H.
Qed.

(** C2. The mark of a file node says whether its path is in the changed
    set. The mark of a directory node says whether its own path is in the set
    or some descendant, at any depth, is marked; equivalently, whether some
    node of its subtree, itself included, has its path in the set; a
    directory without children is marked only by its own path. Underneath,
    [hasChangedDescendant] of any node says whether its subtree holds a
    changed path. *)
Theorem changed_mark_is_subtree_membership
    (changedFiles : list string) (node : TreeNode) :
  (hasChangedDescendant changedFiles node = true <->
     exists m, m ∈ subtree node /\ path m ∈ changedFiles) /\
  (type node = file ->
     (changedMark changedFiles node = true <-> path node ∈ changedFiles)) /\
  (type node = directory ->
     (changedMark changedFiles node = true <->
        path node ∈ changedFiles \/
        exists d, d ∈ descendants node /\ changedMark changedFiles d = true) /\
     (changedMark changedFiles node = true <->
        exists m, m ∈ subtree node /\ path m ∈ changedFiles) /\
     (children node = None \/ children node = Some [] ->
        (changedMark changedFiles node = true <-> path node ∈ changedFiles))).
Proof.
  split; [apply hasChangedDescendant_subtree |].
  split; [apply changedMark_file |].
  intros Ht. pose proof (changedMark_directory changedFiles node Ht) as Hdir.
  split; [|split; [exact Hdir |]].
  - rewrite Hdir. split.
    + intros (m & Hm & Hin).
      apply subtree_split in Hm as [->|Hm]; [now left | right].
      exists m. split; [exact Hm | now apply changedMark_own_path].
    + intros [Hp|(d & Hd & Hmark)].
      * exists node. split; [apply subtree_self | exact Hp].
      * apply changedMark_subtree in Hmark as (m & Hm & Hin).
        exists m. split; [|exact Hin].
        apply subtree_trans with d; [exact Hm |].
        apply subtree_split. now right.
  - intros Hnone. rewrite Hdir. split.
    + intros (m & Hm & Hin).
      apply subtree_split in Hm as [->|Hm]; [exact Hin |].
      unfold descendants in Hm.
      destruct Hnone as [Hc|Hc]; rewrite Hc in Hm; inversion Hm.
    + intros Hp. exists node. split; [apply subtree_self | exact Hp].
Qed.

Lemma changed_mark_is_subtree_membership_witness :
  changedMark ["/repo/src/app.ts"] appFile = true /\
  changedMark ["/repo/src/app.ts"] exampleTree = true /\
  changedMark ["/repo/other.ts"] exampleTree = false.
Proof.
  destruct (changed_mark_is_subtree_membership ["/repo/src/app.ts"] appFile)
    as (_ & Hfile & _).
  destruct (changed_mark_is_subtree_membership ["/repo/src/app.ts"] exampleTree)
    as (_ & _ & Hdir).
  destruct (Hdir eq_refl) as (_ & Hsub & _).
  split; [apply (Hfile eq_refl); apply list_elem_of_here |].
  split; [|reflexivity].
  apply Hsub. exists appFile. split; [|apply list_elem_of_here].
  unfold exampleTree, appFile. simpl.
  apply list_elem_of_further, list_elem_of_further, list_elem_of_here.
Defined.

(** ** The diff view *)

Lemma startsWith_reflect (line p : string) :
  reflect (starts line p) (Js.startsWith line p).
Proof. apply iff_reflect. symmetry. apply startsWith_spec. Qed.

Ltac prefix_cases line :=
  unfold classify;
  destruct (startsWith_reflect line "+");
  destruct (startsWith_reflect line "+++");
  destruct (startsWith_reflect line "-");
  destruct (startsWith_reflect line "---");
  destruct (startsWith_reflect line "@@");
  destruct (startsWith_reflect line "diff");
  destruct (startsWith_reflect line "index");
  simpl.

Lemma classify_addition (line : string) :
  classify line = addition <-> starts line "+" /\ ~ starts line "+++".
Proof. prefix_cases line; intuition congruence. Qed.

Lemma classify_deletion (line : string) :
  classify line = deletion <->
  ~ (starts line "+" /\ ~ starts line "+++") /\
  starts line "-" /\ ~ starts line "---".
Proof. prefix_cases line; intuition congruence. Qed.

Lemma classify_hunkHeader (line : string) :
  classify line = hunkHeader <->
  ~ (starts line "+" /\ ~ starts line "+++") /\
  ~ (starts line "-" /\ ~ starts line "---") /\
  starts line "@@".
Proof. prefix_cases line; intuition congruence. Qed.

Lemma classify_metadata (line : string) :
  classify line = metadata <->
  ~ (starts line "+" /\ ~ starts line "+++") /\
  ~ (starts line "-" /\ ~ starts line "---") /\
  ~ starts line "@@" /\
  (starts line "diff" \/ starts line "index").
Proof. prefix_cases line; intuition congruence. Qed.

Lemma classify_context (line : string) :
  classify line = context <->
  ~ (starts line "+" /\ ~ starts line "+++") /\
  ~ (starts line "-" /\ ~ starts line "---") /\
  ~ starts line "@@" /\
  ~ (starts line "diff" \/ starts line "index").
Proof. prefix_cases line; intuition congruence. Qed.

Lemma DiffView_nonempty (diff : string) :
  diff <> "" -> DiffView diff = Lines (imap diffLine (Js.split newline diff)).
Proof.
  intros Hne. unfold DiffView.
  destruct (String.eqb_spec diff ""); [contradiction | reflexivity].
Qed.

(** C3. A non-empty diff is drawn as one row per line of the text split at
    the line feeds: as many rows as there are line feeds plus one, row [i]
    made from line [i], and the lines joined by line feeds give the text
    back. Each line is classified by the first rule that applies: addition
    when it begins with + and not with +++; else deletion when it begins
    with - and not with ---; else hunk header when it begins with @@; else
    metadata when it begins with diff or index; else context. The five lines
    of the test diff are metadata, hunk header, context, deletion and
    addition. *)
Theorem diff_lines_classified_in_order (diff : string) :
  diff <> "" ->
  (exists rows,
     DiffView diff = Lines rows /\
     length rows = S (Js.occurrences newline diff) /\
     length rows = length (Js.split newline diff) /\
     Js.join newline (Js.split newline diff) = diff /\
     forall i, rows !! i = diffLine i <$> Js.split newline diff !! i) /\
  (forall line,
     (classify line = addition <->
        starts line "+" /\ ~ starts line "+++") /\
     (classify line = deletion <->
        ~ (starts line "+" /\ ~ starts line "+++") /\
        starts line "-" /\ ~ starts line "---") /\
     (classify line = hunkHeader <->
        ~ (starts line "+" /\ ~ starts line "+++") /\
        ~ (starts line "-" /\ ~ starts line "---") /\
        starts line "@@") /\
     (classify line = metadata <->
        ~ (starts line "+" /\ ~ starts line "+++") /\
        ~ (starts line "-" /\ ~ starts line "---") /\
        ~ starts line "@@" /\
        (starts line "diff" \/ starts line "index")) /\
     (classify line = context <->
        ~ (starts line "+" /\ ~ starts line "+++") /\
        ~ (starts line "-" /\ ~ starts line "---") /\
        ~ starts line "@@" /\
        ~ (starts line "diff" \/ starts line "index"))) /\
  DiffView exampleDiff =
    Lines [ {| key := 0; category := metadata;
               text := "diff --git a/f.ts b/f.ts" |};
            {| key := 1; category := hunkHeader; text := "@@ -1,2 +1,2 @@" |};
            {| key := 2; category := context; text := " context" |};
            {| key := 3; category := deletion; text := "-removed" |};
            {| key := 4; category := addition; text := "+added" |} ].
Proof.
  intros Hne. split; [|split].
  - exists (imap diffLine (Js.split newline diff)).
    split; [now apply DiffView_nonempty |].
    rewrite length_imap, length_split.
    repeat split; [apply join_split |].
    intros i. apply list_lookup_imap.
  - intros line.
    pose proof (classify_addition line). pose proof (classify_deletion line).
    pose proof (classify_hunkHeader line). pose proof (classify_metadata line).
    pose proof (classify_context line). tauto.
  - vm_compute. reflexivity.
Qed.

Lemma diff_lines_classified_in_order_witness :
  exists rows,
    DiffView "+++ b/f.ts
+x" = Lines rows /\ category <$> rows = [context; addition].
Proof.
  destruct (diff_lines_classified_in_order "+++ b/f.ts
+x") as [(rows & Hview & _) _]; [discriminate |].
  exists rows. split; [exact Hview |].
  vm_compute in Hview. injection Hview as <-. reflexivity.
Defined.

(** ** The sidebar list *)

Section Sort_facts.
Context {A : Type} (compareFn : A -> A -> Z).

(** What [Array.prototype.sort] asks of a consistent comparator. *)
Hypothesis compare_swap :
  forall a b, (0 < compareFn a b)%Z -> (compareFn b a <= 0)%Z.
Hypothesis compare_trans :
  forall a b c,
    (compareFn a b <= 0)%Z -> (compareFn b c <= 0)%Z -> (compareFn a c <= 0)%Z.

Let before (a b : A) : Prop := (compareFn a b <= 0)%Z.

Lemma sortInsert_perm (x : A) (l : list A) : sortInsert compareFn x l ≡ₚ x :: l.
Proof.
  induction l as [|y l IH]; simpl; [reflexivity |].
  destruct (compareFn x y <=? 0)%Z; [reflexivity |].
  rewrite IH. apply Permutation_swap.
Qed.

Lemma sort_perm (l : list A) : sort compareFn l ≡ₚ l.
Proof.
  induction l as [|x l IH]; simpl; [reflexivity |].
  now rewrite sortInsert_perm, IH.
Qed.

Lemma sortInsert_sorted (x : A) (l : list A) :
  StronglySorted before l -> StronglySorted before (sortInsert compareFn x l).
Proof using compare_swap compare_trans.
  induction l as [|y l IH]; intros Hs; simpl.
  - apply SSorted_cons; [exact Hs | apply List.Forall_nil].
  - apply StronglySorted_inv in Hs as [Hl Hy].
    destruct (compareFn x y <=? 0)%Z eqn:Hxy.
    + apply Z.leb_le in Hxy.
      apply SSorted_cons; [now apply SSorted_cons |].
      apply List.Forall_cons; [exact Hxy |].
      eapply Forall_impl; [exact Hy |].
      intros z Hz. now apply compare_trans with y.
    + apply Z.leb_gt in Hxy.
      apply SSorted_cons; [now apply IH |].
      rewrite sortInsert_perm.
      apply List.Forall_cons; [now apply compare_swap | exact Hy].
Qed.

Lemma sort_sorted (l : list A) : StronglySorted before (sort compareFn l).
Proof using compare_swap compare_trans.
  induction l as [|x l IH]; simpl;
    [apply SSorted_nil | now apply sortInsert_sorted].
Qed.
End Sort_facts.

Lemma relativeEntry_abs (cwd fp : string) : abs (relativeEntry cwd fp) = fp.
Proof. reflexivity. Qed.

Lemma relativeEntry_inside (cwd r : string) :
  rel (relativeEntry cwd (cwd +:+ "/" +:+ r)) = r.
Proof.
  unfold relativeEntry. simpl.
  replace (cwd +:+ "/" +:+ r) with ((cwd +:+ "/") +:+ r)
    by (change ("/" +:+ r) with (String "/"%char r); apply app_assoc_one).
  destruct (startsWith_reflect ((cwd +:+ "/") +:+ r) (cwd +:+ "/")) as [_|Hn].
  - rewrite <- length_app_one with (c := "/"%char). apply slice_app.
  - exfalso. apply Hn. now exists r.
Qed.

Lemma relativeEntry_outside (cwd fp : string) :
  ~ starts fp (cwd +:+ "/") -> rel (relativeEntry cwd fp) = fp.
Proof.
  intros Hn. unfold relativeEntry. simpl.
  destruct (startsWith_reflect fp (cwd +:+ "/")); [contradiction | reflexivity].
Qed.

Lemma relativeChangedFiles_sort
    (localeCompare : string -> string -> Z) (changedFiles : list string)
    (cwd : string) :
  cwd <> "" ->
  relativeChangedFiles localeCompare changedFiles (Some cwd) =
  sort (fun a b => localeCompare (rel a) (rel b))
       (relativeEntry cwd <$> changedFiles).
Proof.
  intros Hne. unfold relativeChangedFiles.
  destruct cwd as [|c cwd]; [contradiction |].
  destruct changedFiles; reflexivity.
Qed.

Section Sidebar.
Variable localeCompare : string -> string -> Z.
Hypothesis localeCompare_swap :
  forall a b, (0 < localeCompare a b)%Z -> (localeCompare b a <= 0)%Z.
Hypothesis localeCompare_trans :
  forall a b c,
    (localeCompare a b <= 0)%Z -> (localeCompare b c <= 0)%Z ->
    (localeCompare a c <= 0)%Z.

(** C9. With a working directory, the sidebar list holds one entry per
    changed path (it is a rearrangement of the changed paths mapped to
    entries); the entry of a path [cwd/r] is labelled [r], the entry of any
    other path keeps the absolute path as its label; the entries are in
    ascending order of their labels under the comparator the sort is
    given, [localeCompare], the collation of the runtime, of which only
    that it is a consistent comparator is used; and the changed set
    {/repo/src/app.ts} with the working directory /repo gives the single
    entry src/app.ts. That this is the order by character codes is not
    part of it. *)
Theorem sidebar_list_relative_and_sorted
    (changedFiles : list string) (cwd : string) :
  cwd <> "" ->
  let entries := relativeChangedFiles localeCompare changedFiles (Some cwd) in
  entries ≡ₚ relativeEntry cwd <$> changedFiles /\
  (forall fp,
     abs (relativeEntry cwd fp) = fp /\
     (forall r, fp = cwd +:+ "/" +:+ r -> rel (relativeEntry cwd fp) = r) /\
     (~ starts fp (cwd +:+ "/") -> rel (relativeEntry cwd fp) = fp)) /\
  StronglySorted
    (fun a b => (localeCompare (rel a) (rel b) <= 0)%Z) entries /\
  relativeChangedFiles localeCompare ["/repo/src/app.ts"] (Some "/repo") =
    [ {| abs := "/repo/src/app.ts"; rel := "src/app.ts" |} ].
Proof using localeCompare_swap localeCompare_trans.
  intros Hne entries. subst entries.
  rewrite relativeChangedFiles_sort by exact Hne.
  split; [apply sort_perm |].
  split; [|split; [|reflexivity]].
  - intros fp. split; [reflexivity |].
    split; [intros r ->; apply relativeEntry_inside |].
    apply relativeEntry_outside.
  - apply sort_sorted with
      (compareFn := fun a b => localeCompare (rel a) (rel b)).
    + intros a b. apply localeCompare_swap.
    + intros a b c. apply localeCompare_trans.
Qed.
End Sidebar.

(** The comparison by character codes is a consistent comparator. *)
Lemma ascii_compare_refl (a : ascii) : Ascii.compare a a = Eq.
Proof. apply N.compare_refl. Qed.

Lemma ascii_compare_lt_trans (a b c : ascii) :
  Ascii.compare a b = Lt -> Ascii.compare b c = Lt -> Ascii.compare a c = Lt.
Proof. unfold Ascii.compare. rewrite !N.compare_lt_iff. lia. Qed.

Lemma string_compare_lt_trans (a b c : string) :
  String.compare a b = Lt -> String.compare b c = Lt -> String.compare a c = Lt.
Proof.
  revert b c. induction a as [|x a IH]; intros [|y b] [|z c]; simpl;
    try congruence.
  destruct (Ascii.compare x y) eqn:Hxy; try discriminate;
    destruct (Ascii.compare y z) eqn:Hyz; try discriminate.
  - apply Ascii.compare_eq_iff in Hxy, Hyz. subst.
    rewrite ascii_compare_refl. apply IH.
  - apply Ascii.compare_eq_iff in Hxy. subst. now rewrite Hyz.
  - apply Ascii.compare_eq_iff in Hyz. subst. now rewrite Hxy.
  - now rewrite (ascii_compare_lt_trans x y z).
Qed.

Lemma lexCompare_swap (a b : string) :
  (0 < lexCompare a b)%Z -> (lexCompare b a <= 0)%Z.
Proof.
  unfold lexCompare. rewrite (String.compare_antisym b a).
  destruct (String.compare a b); simpl; lia.
Qed.

Lemma string_compare_refl (a : string) : String.compare a a = Eq.
Proof.
  induction a as [|x a IH]; simpl; [reflexivity |].
  now rewrite ascii_compare_refl.
Qed.

Lemma lexCompare_trans (a b c : string) :
  (lexCompare a b <= 0)%Z -> (lexCompare b c <= 0)%Z -> (lexCompare a c <= 0)%Z.
Proof.
  unfold lexCompare.
  destruct (String.compare a b) eqn:Hab; try lia;
    destruct (String.compare b c) eqn:Hbc; try lia; intros _ _.
  - apply String.compare_eq_iff in Hab, Hbc. subst.
    now rewrite string_compare_refl.
  - apply String.compare_eq_iff in Hab. subst. now rewrite Hbc.
  - apply String.compare_eq_iff in Hbc. subst. now rewrite Hab.
  - now rewrite (string_compare_lt_trans a b c).
Qed.

Lemma foldCompare_swap (a b : string) :
  (0 < foldCompare a b)%Z -> (foldCompare b a <= 0)%Z.
Proof.
  unfold foldCompare.
  rewrite (String.compare_antisym (toLowerCase b) (toLowerCase a)).
  destruct (String.compare (toLowerCase a) (toLowerCase b)); simpl;
    [apply lexCompare_swap | lia | lia].
Qed.

Lemma foldCompare_trans (a b c : string) :
  (foldCompare a b <= 0)%Z -> (foldCompare b c <= 0)%Z ->
  (foldCompare a c <= 0)%Z.
Proof.
  unfold foldCompare.
  destruct (String.compare (toLowerCase a) (toLowerCase b)) eqn:Hab;
    try lia;
    destruct (String.compare (toLowerCase b) (toLowerCase c)) eqn:Hbc;
    try lia; intros H1 H2.
  - apply String.compare_eq_iff in Hab, Hbc. rewrite Hab, Hbc.
    rewrite string_compare_refl. now apply (lexCompare_trans c b a).
  - apply String.compare_eq_iff in Hab. rewrite Hab, Hbc. lia.
  - apply String.compare_eq_iff in Hbc. rewrite <- Hbc, Hab. lia.
  - rewrite (string_compare_lt_trans _ _ _ Hab Hbc). lia.
Qed.

Lemma sidebar_list_relative_and_sorted_witness :
  let entries :=
    relativeChangedFiles foldCompare
      ["/repo/src/app.ts"; "/repo/Z.ts"; "/other/x"; "/repo/a.ts"]
      (Some "/repo") in
  entries = [ {| abs := "/other/x"; rel := "/other/x" |};
              {| abs := "/repo/a.ts"; rel := "a.ts" |};
              {| abs := "/repo/src/app.ts"; rel := "src/app.ts" |};
              {| abs := "/repo/Z.ts"; rel := "Z.ts" |} ] /\
  StronglySorted (fun a b => (foldCompare (rel a) (rel b) <= 0)%Z) entries.
Proof.
  split; [reflexivity |].
  apply (sidebar_list_relative_and_sorted foldCompare foldCompare_swap
           foldCompare_trans
           ["/repo/src/app.ts"; "/repo/Z.ts"; "/other/x"; "/repo/a.ts"]
           "/repo").
  discriminate.
Defined.

(** C9, the claim as it stands, fails. The list is in the order of
    [localeCompare], which is not the order by character codes: the
    runtime's comparator puts a.ts before Z.ts, as [foldCompare] does, and
    under any comparator that does so the list for the changed set
    {/repo/Z.ts, /repo/a.ts} is a.ts, Z.ts in either insertion order, while
    by character codes Z.ts comes first. *)
Lemma sidebar_order_is_not_lexicographic :
  (foldCompare "a.ts" "Z.ts" < 0)%Z /\ (0 < foldCompare "Z.ts" "a.ts")%Z /\
  (lexCompare "Z.ts" "a.ts" < 0)%Z /\
  relativeChangedFiles foldCompare ["/repo/Z.ts"; "/repo/a.ts"] (Some "/repo")
    = [ {| abs := "/repo/a.ts"; rel := "a.ts" |};
        {| abs := "/repo/Z.ts"; rel := "Z.ts" |} ] /\
  ~ (exists localeCompare,
       (localeCompare "a.ts" "Z.ts" < 0)%Z /\
       (0 < localeCompare "Z.ts" "a.ts")%Z /\
       (StronglySorted (fun a b => (lexCompare (rel a) (rel b) <= 0)%Z)
          (relativeChangedFiles localeCompare ["/repo/Z.ts"; "/repo/a.ts"]
             (Some "/repo")) \/
        StronglySorted (fun a b => (lexCompare (rel a) (rel b) <= 0)%Z)
          (relativeChangedFiles localeCompare ["/repo/a.ts"; "/repo/Z.ts"]
             (Some "/repo")))).
Proof.
  split; [reflexivity |]. split; [reflexivity |]. split; [reflexivity |].
  split; [reflexivity |].
  intros (localeCompare & Hlt & Hgt & Hsorted).
  assert (relativeChangedFiles localeCompare ["/repo/Z.ts"; "/repo/a.ts"]
            (Some "/repo")
          = [ {| abs := "/repo/a.ts"; rel := "a.ts" |};
              {| abs := "/repo/Z.ts"; rel := "Z.ts" |} ]) as Hza.
  { unfold relativeChangedFiles. simpl.
    assert ((localeCompare "Z.ts" "a.ts" <=? 0)%Z = false) as ->
      by (apply Z.leb_gt; lia).
    reflexivity. }
  assert (relativeChangedFiles localeCompare ["/repo/a.ts"; "/repo/Z.ts"]
            (Some "/repo")
          = [ {| abs := "/repo/a.ts"; rel := "a.ts" |};
              {| abs := "/repo/Z.ts"; rel := "Z.ts" |} ]) as Haz.
  { unfold relativeChangedFiles. simpl.
    assert ((localeCompare "a.ts" "Z.ts" <=? 0)%Z = true) as ->
      by (apply Z.leb_le; lia).
    reflexivity. }
  rewrite Hza, Haz in Hsorted.
  assert (StronglySorted (fun a b => (lexCompare (rel a) (rel b) <= 0)%Z)
            [ {| abs := "/repo/a.ts"; rel := "a.ts" |};
              {| abs := "/repo/Z.ts"; rel := "Z.ts" |} ]) as Hs by tauto.
  apply StronglySorted_inv in Hs as [_ Hall].
  apply Forall_cons in Hall as [Hle _].
  vm_compute in Hle. now apply Hle.
Qed.

(** ** The controller: what each operation leaves alone *)

Lemma writes_call (r : Request) (s : State) :
  writes (call r s) = writes s ++ option_list (asWrite r).
Proof.
  unfold writes, call. simpl. rewrite omap_app. simpl.
  destruct (asWrite r); reflexivity.
Qed.

Lemma fire_frame (s : State) (f : Callback) :
  timers (fire s f) = timers s /\ saveTimerRef (fire s f) = saveTimerRef s /\
  clock (fire s f) = clock s /\ openFilePath (fire s f) = openFilePath s /\
  fileContent (fire s f) = fileContent s /\
  savedContent (fire s f) = savedContent s.
Proof. destruct f; repeat split. Qed.

Lemma writes_fire (s : State) (t : Timer) :
  writes (fire s (cb t)) = writes s ++ option_list (timerWrite t).
Proof.
  unfold timerWrite. destruct (cb t); simpl.
  - now rewrite writes_call.
  - unfold writes. simpl. now rewrite app_nil_r.
Qed.

Lemma fire_all_frame (l : list Timer) (s : State) :
  timers (foldl fire s (cb <$> l)) = timers s /\
  saveTimerRef (foldl fire s (cb <$> l)) = saveTimerRef s /\
  clock (foldl fire s (cb <$> l)) = clock s /\
  openFilePath (foldl fire s (cb <$> l)) = openFilePath s /\
  fileContent (foldl fire s (cb <$> l)) = fileContent s /\
  savedContent (foldl fire s (cb <$> l)) = savedContent s /\
  writes (foldl fire s (cb <$> l)) = writes s ++ omap timerWrite l.
Proof.
  revert s. induction l as [|t l IH]; intros s.
  - simpl. rewrite app_nil_r. repeat split.
  - change (foldl fire s (cb <$> t :: l))
      with (foldl fire (fire s (cb t)) (cb <$> l)).
    destruct (IH (fire s (cb t))) as (H1 & H2 & H3 & H4 & H5 & H6 & H7).
    destruct (fire_frame s (cb t)) as (F1 & F2 & F3 & F4 & F5 & F6).
    rewrite H1, H2, H3, H4, H5, H6, H7, F1, F2, F3, F4, F5, F6, writes_fire.
    repeat split.
    rewrite <- app_assoc. f_equal.
    unfold timerWrite. simpl. destruct (cb t); reflexivity.
Qed.

Lemma advance_frame (d : N) (s : State) :
  timers (advance d s) = filter (fun t => clock s + d < due t) (timers s) /\
  saveTimerRef (advance d s) = saveTimerRef s /\
  clock (advance d s) = clock s + d /\
  openFilePath (advance d s) = openFilePath s /\
  fileContent (advance d s) = fileContent s /\
  savedContent (advance d s) = savedContent s /\
  writes (advance d s) =
    writes s ++
    omap timerWrite (filter (fun t => due t <= clock s + d) (timers s)).
Proof.
  unfold advance.
  destruct (fire_all_frame
              (filter (fun t => due t <= clock s + d) (timers s))
              (withClock (clock s + d)
                 (withTimers (filter (fun t => clock s + d < due t) (timers s)) s)))
    as (H1 & H2 & H3 & H4 & H5 & H6 & H7).
  rewrite H1, H2, H3, H4, H5, H6, H7. repeat split.
Qed.

Lemma filter_enqueue_other (P : Timer -> Prop) `{!forall t, Decision (P t)}
    (t : Timer) (l : list Timer) :
  ~ P t -> filter P (enqueue t l) = filter P l.
Proof.
  intros Hn. induction l as [|u l IH]; simpl.
  - now rewrite filter_cons_False.
  - destruct (due u <=? due t).
    + rewrite !filter_cons, IH. reflexivity.
    + now rewrite (filter_cons_False _ t).
Qed.

Lemma filter_enqueue_only (P : Timer -> Prop) `{!forall t, Decision (P t)}
    (t : Timer) (l : list Timer) :
  P t -> filter P l = [] -> filter P (enqueue t l) = [t].
Proof.
  intros Hp. induction l as [|u l IH]; simpl; intros Hnil.
  - now rewrite filter_cons_True.
  - rewrite filter_cons in Hnil. destruct (decide (P u)); [discriminate |].
    destruct (due u <=? due t).
    + rewrite filter_cons_False by assumption. now apply IH.
    + rewrite filter_cons_True, filter_cons_False by assumption.
      now rewrite Hnil.
Qed.

Lemma elem_of_enqueue (t u : Timer) (l : list Timer) :
  u ∈ enqueue t l <-> u = t \/ u ∈ l.
Proof.
  induction l as [|x l IH]; simpl.
  - rewrite list_elem_of_singleton. split; [auto | intros [H|H]; [exact H | inversion H]].
  - destruct (due x <=? due t).
    + rewrite !elem_of_cons, IH. tauto.
    + rewrite !elem_of_cons. tauto.
Qed.

Lemma filter_swap (P Q : Timer -> Prop)
    `{!forall t, Decision (P t)} `{!forall t, Decision (Q t)} (l : list Timer) :
  filter P (filter Q l) = filter Q (filter P l).
Proof.
  induction l as [|x l IH]; [reflexivity |].
  rewrite !(filter_cons _ x l).
  destruct (decide (Q x)), (decide (P x));
    rewrite ?filter_cons_True, ?filter_cons_False by assumption;
    now rewrite IH.
Qed.

Lemma omap_cons_eq {A B : Type} (f : A -> option B) (x : A) (l : list A) :
  omap f (x :: l) =
  match f x with Some y => y :: omap f l | None => omap f l end.
Proof. reflexivity. Qed.

Lemma timerWrite_saves (l : list Timer) :
  omap timerWrite l = omap timerWrite (filter isSave l).
Proof.
  induction l as [|x l IH]; [reflexivity |].
  destruct (decide (isSave x)) as [Hs|Hs].
  - rewrite filter_cons_True by assumption. rewrite !omap_cons_eq.
    now rewrite IH.
  - rewrite filter_cons_False by assumption. rewrite omap_cons_eq.
    unfold isSave in Hs. unfold timerWrite at 1.
    destruct (cb x); [exfalso; now apply Hs | exact IH].
Qed.

Lemma timerWrite_save (t : Timer) (p : option string) (v : string) :
  cb t = SaveCb p v -> timerWrite t = Some (p, v).
Proof. unfold timerWrite. now intros ->. Qed.

(** Time passing with one debounce timer in the queue. *)
Lemma advance_before_due (d : N) (s : State) (t : Timer) :
  saveTimers s = [t] -> clock s + d < due t ->
  saveTimers (advance d s) = [t] /\ writes (advance d s) = writes s.
Proof.
  intros Hs Hlt.
  destruct (advance_frame d s) as (H1 & _ & _ & _ & _ & _ & H7).
  unfold saveTimers in *. rewrite H1, H7. split.
  - rewrite filter_swap, Hs. now rewrite filter_cons_True.
  - rewrite timerWrite_saves, filter_swap, Hs.
    rewrite filter_cons_False by lia. apply app_nil_r.
Qed.

Lemma advance_past_due (d : N) (s : State) (t : Timer)
    (p : option string) (v : string) :
  saveTimers s = [t] -> cb t = SaveCb p v -> due t <= clock s + d ->
  saveTimers (advance d s) = [] /\ writes (advance d s) = writes s ++ [(p, v)].
Proof.
  intros Hs Hcb Hle.
  destruct (advance_frame d s) as (H1 & _ & _ & _ & _ & _ & H7).
  unfold saveTimers in *. rewrite H1, H7. split.
  - rewrite filter_swap, Hs. now rewrite filter_cons_False by lia.
  - rewrite timerWrite_saves, filter_swap, Hs.
    rewrite filter_cons_True by lia.
    now rewrite omap_cons_eq, (timerWrite_save t p v Hcb).
Qed.

Lemma advance_no_save (d : N) (s : State) :
  saveTimers s = [] ->
  saveTimers (advance d s) = [] /\ writes (advance d s) = writes s.
Proof.
  intros Hs.
  destruct (advance_frame d s) as (H1 & _ & _ & _ & _ & _ & H7).
  unfold saveTimers in *. rewrite H1, H7. split.
  - now rewrite filter_swap, Hs.
  - rewrite timerWrite_saves, filter_swap, Hs. apply app_nil_r.
Qed.

(** The effects and the continuations arm no debounce timer and write
    nothing. *)
Lemma loadFileEffect_frame (s : State) :
  timers (loadFileEffect s) = timers s /\
  saveTimerRef (loadFileEffect s) = saveTimerRef s /\
  clock (loadFileEffect s) = clock s /\
  writes (loadFileEffect s) = writes s /\
  openFilePath (loadFileEffect s) = openFilePath s /\
  diffMode (loadFileEffect s) = diffMode s.
Proof.
  unfold loadFileEffect.
  destruct (openFilePath s) as [p|] eqn:Hp; [|now repeat split].
  destruct (negb (Js.truthy (Some p))); [now repeat split |].
  rewrite writes_call. simpl. rewrite app_nil_r. now repeat split.
Qed.

Lemma diffFetchEffect_frame (mode : bool) (s : State) :
  timers (diffFetchEffect mode s) = timers s /\
  saveTimerRef (diffFetchEffect mode s) = saveTimerRef s /\
  clock (diffFetchEffect mode s) = clock s /\
  writes (diffFetchEffect mode s) = writes s /\
  openFilePath (diffFetchEffect mode s) = openFilePath s /\
  diffMode (diffFetchEffect mode s) = diffMode s.
Proof.
  unfold diffFetchEffect.
  destruct (openFilePath s) as [p|] eqn:Hp; [|now repeat split].
  destruct (negb mode || negb (Js.truthy (Some p))
            || negb (Js.has (changedFiles s) p));
    [now repeat split |].
  rewrite writes_call. simpl. rewrite app_nil_r. now repeat split.
Qed.

Lemma openFileChanged_frame (p : option string) (s : State) :
  timers (openFileChanged p s) = timers s /\
  saveTimerRef (openFileChanged p s) = saveTimerRef s /\
  clock (openFileChanged p s) = clock s /\
  writes (openFileChanged p s) = writes s.
Proof.
  unfold openFileChanged. case_decide; [repeat split |].
  destruct (diffFetchEffect_frame (diffMode s)
              (setDiffMode false (loadFileEffect (withOpenFilePath p s))))
    as (-> & -> & -> & -> & _).
  destruct (loadFileEffect_frame (withOpenFilePath p s))
    as (H1 & H2 & H3 & H4 & _).
  simpl. unfold writes in *. simpl in *. rewrite H1, H2, H3, H4.
  repeat split.
Qed.

Lemma settle_frame (r : Request) (o : Settled) (s : State) :
  saveTimers (settle r o s) = saveTimers s /\
  saveTimerRef (settle r o s) = saveTimerRef s /\
  clock (settle r o s) = clock s /\
  writes (settle r o s) = writes s /\
  openFilePath (settle r o s) = openFilePath s.
Proof.
  destruct r, o; simpl; repeat split.
  unfold saveTimers. simpl. apply filter_enqueue_other. intros [].
Qed.

Lemma resolve_frame (id : positive) (o : Settled) (s : State) :
  saveTimers (resolve id o s) = saveTimers s /\
  saveTimerRef (resolve id o s) = saveTimerRef s /\
  clock (resolve id o s) = clock s /\
  writes (resolve id o s) = writes s /\
  openFilePath (resolve id o s) = openFilePath s.
Proof.
  unfold resolve. destruct (pending s !! id) as [r|]; [|repeat split].
  apply (settle_frame r o (withPending (delete id (pending s)) s)).
Qed.

Lemma quiet_step_frame (s : State) (e : Event) :
  ~ isEdit e -> (forall d, e <> Advance d) ->
  saveTimers (step s e) = saveTimers s /\
  saveTimerRef (step s e) = saveTimerRef s /\
  clock (step s e) = clock s /\
  writes (step s e) = writes s.
Proof.
  intros Hne Hna. destruct e as [p|cf|v|b|d|id o]; simpl.
  - unfold saveTimers.
    destruct (openFileChanged_frame p s) as (-> & -> & -> & ->). repeat split.
  - unfold changedFilesChanged, saveTimers.
    destruct (diffFetchEffect_frame (diffMode s) (withChangedFiles cf s))
      as (-> & -> & -> & -> & _).
    repeat split.
  - exfalso. now apply Hne.
  - unfold clickDiffMode, saveTimers. case_decide; [repeat split |].
    destruct (diffFetchEffect_frame b (setDiffMode b s))
      as (-> & -> & -> & -> & _).
    repeat split.
  - exfalso. now apply (Hna d).
  - destruct (resolve_frame id o s) as (-> & -> & -> & -> & _). repeat split.
Qed.

(** ** The debounce timer *)

Lemma filter_none (P : Timer -> Prop) `{!forall t, Decision (P t)}
    (l : list Timer) :
  (forall t, t ∈ l -> ~ P t) -> filter P l = [].
Proof.
  intros Hall. destruct (filter P l) as [|t l'] eqn:Hf; [reflexivity |].
  assert (t ∈ filter P l) as Hin by (rewrite Hf; apply list_elem_of_here).
  apply list_elem_of_filter in Hin as [Hp Hin]. now apply Hall in Hin.
Qed.

Lemma handleChange_frame (value : string) (s : State) :
  fileContent (handleChange value s) = value /\
  saveStatus (handleChange value s) = Some dirty /\
  openFilePath (handleChange value s) = openFilePath s /\
  savedContent (handleChange value s) = savedContent s /\
  clock (handleChange value s) = clock s /\
  calls (handleChange value s) = calls s /\
  pending (handleChange value s) = pending s /\
  forall t, t ∈ timers (handleChange value s) ->
            t ∈ timers s \/ (isSave t /\ Js.truthy (openFilePath s) = true).
Proof.
  unfold handleChange. simpl.
  destruct (saveTimerRef s) as [id|]; simpl;
    destruct (Js.truthy (openFilePath s)); simpl; repeat split; auto;
    intros t Ht.
  - apply elem_of_enqueue in Ht as [->|Ht]; [right; now split |].
    left. now apply list_elem_of_filter in Ht as [_ Ht].
  - left. now apply list_elem_of_filter in Ht as [_ Ht].
  - apply elem_of_enqueue in Ht as [->|Ht]; [right; now split | now left].
Qed.

Lemma cancelled_saves (s : State) :
  (forall t, t ∈ saveTimers s -> saveTimerRef s = Some (tid t)) ->
  match saveTimerRef s with
  | Some id => filter isSave (filter (fun t => tid t <> id) (timers s)) = []
  | None => saveTimers s = []
  end.
Proof.
  intros Href. destruct (saveTimerRef s) as [id|] eqn:Hid.
  - apply filter_none. intros t Ht Hsave.
    apply list_elem_of_filter in Ht as [Hne Ht].
    assert (t ∈ saveTimers s) as Hin by now apply list_elem_of_filter.
    apply Href in Hin. congruence.
  - apply filter_none. intros t Ht Hsave.
    assert (t ∈ saveTimers s) as Hin by now apply list_elem_of_filter.
    apply Href in Hin. discriminate.
Qed.

Lemma handleChange_armed (value : string) (s : State) :
  (forall t, t ∈ saveTimers s -> saveTimerRef s = Some (tid t)) ->
  Js.truthy (openFilePath s) = true ->
  saveTimers (handleChange value s) =
    [ {| tid := nextId s; due := clock s + SAVE_DELAY;
         cb := SaveCb (openFilePath s) value |} ] /\
  saveTimerRef (handleChange value s) = Some (nextId s) /\
  nextId (handleChange value s) = Pos.succ (nextId s).
Proof.
  intros Href Hopen. pose proof (cancelled_saves s Href) as Hnone.
  unfold handleChange, saveTimers in *. simpl.
  destruct (saveTimerRef s) as [id|]; simpl; rewrite Hopen; simpl;
    (split; [|split; reflexivity]);
    now apply filter_enqueue_only.
Qed.

Lemma handleChange_unarmed (value : string) (s : State) :
  (forall t, t ∈ saveTimers s -> saveTimerRef s = Some (tid t)) ->
  Js.truthy (openFilePath s) = false ->
  saveTimers (handleChange value s) = [] /\
  saveTimerRef (handleChange value s) = saveTimerRef s.
Proof.
  intros Href Hopen. pose proof (cancelled_saves s Href) as Hnone.
  unfold handleChange, saveTimers in *. simpl.
  destruct (saveTimerRef s) as [id|] eqn:Hid; simpl; rewrite Hopen; simpl;
    now split.
Qed.

(** ** Consistency of the reachable states *)

Lemma writes_handleChange (value : string) (s : State) :
  writes (handleChange value s) = writes s.
Proof.
  unfold writes. now destruct (handleChange_frame value s) as (_&_&_&_&_&->&_).
Qed.

Lemma handleChange_consistent (value : string) (s : State) :
  Consistent s -> Consistent (handleChange value s).
Proof.
  intros [Href Hpath Hwr].
  destruct (Js.truthy (openFilePath s)) eqn:Hopen.
  - destruct (handleChange_armed value s Href Hopen) as (Hs & Hr & _).
    split.
    + intros t Ht. rewrite Hs in Ht. apply list_elem_of_singleton in Ht as ->.
      exact Hr.
    + intros t p v Ht Hcb. rewrite Hs in Ht.
      apply list_elem_of_singleton in Ht as ->. simpl in Hcb. congruence.
    + rewrite writes_handleChange. exact Hwr.
  - destruct (handleChange_unarmed value s Href Hopen) as (Hs & Hr).
    split.
    + intros t Ht. rewrite Hs in Ht. inversion Ht.
    + intros t p v Ht. rewrite Hs in Ht. inversion Ht.
    + rewrite writes_handleChange. exact Hwr.
Qed.

Lemma advance_consistent (d : N) (s : State) :
  Consistent s -> Consistent (advance d s).
Proof.
  intros [Href Hpath Hwr].
  destruct (advance_frame d s) as (H1 & H2 & _ & _ & _ & _ & H7).
  assert (forall t, t ∈ saveTimers (advance d s) -> t ∈ saveTimers s) as Hsub.
  { intros t. unfold saveTimers. rewrite H1, !list_elem_of_filter. tauto. }
  split.
  - intros t Ht. rewrite H2. auto.
  - intros t p v Ht. eauto.
  - intros p v. rewrite H7, elem_of_app. intros [Hin|Hin]; [eauto |].
    apply list_elem_of_omap in Hin as (t & Ht & Hw).
    apply list_elem_of_filter in Ht as [_ Ht].
    unfold timerWrite in Hw. destruct (cb t) as [q w|] eqn:Hcb; [|discriminate].
    injection Hw as <- <-.
    apply (Hpath t q w); [|exact Hcb].
    apply list_elem_of_filter. split; [|exact Ht].
    unfold isSave. now rewrite Hcb.
Qed.

Lemma quiet_step_consistent (s : State) (e : Event) :
  ~ isEdit e -> (forall d, e <> Advance d) ->
  Consistent s -> Consistent (step s e).
Proof.
  intros Hne Hna [Href Hpath Hwr].
  destruct (quiet_step_frame s e Hne Hna) as (H1 & H2 & _ & H4).
  split; rewrite ?H1, ?H2, ?H4; assumption.
Qed.

Lemma step_consistent (s : State) (e : Event) :
  Consistent s -> Consistent (step s e).
Proof.
  intros Hc. destruct e as [p|cf|v|b|d|id o].
  - apply quiet_step_consistent; [intros H; exact H | discriminate | exact Hc].
  - apply quiet_step_consistent; [intros H; exact H | discriminate | exact Hc].
  - now apply handleChange_consistent.
  - apply quiet_step_consistent; [intros H; exact H | discriminate | exact Hc].
  - now apply advance_consistent.
  - apply quiet_step_consistent; [intros H; exact H | discriminate | exact Hc].
Qed.

Lemma run_snoc (es : list Event) (e : Event) (s : State) :
  run (es ++ [e]) s = step (run es s) e.
Proof. unfold run. now rewrite foldl_app. Qed.

Lemma run_consistent (es : list Event) (s : State) :
  Consistent s -> Consistent (run es s).
Proof.
  revert s. induction es as [|e es IH]; intros s Hc; [exact Hc |].
  apply (IH (step s e)). now apply step_consistent.
Qed.

Lemma mount_consistent (p : option string) (cf : list string) :
  Consistent (mount p cf).
Proof.
  unfold mount.
  match goal with
  | |- Consistent (diffFetchEffect _ (setDiffMode _ (loadFileEffect ?s0))) =>
      destruct (diffFetchEffect_frame false (setDiffMode false (loadFileEffect s0)))
        as (H1 & H2 & _ & H4 & _);
      destruct (loadFileEffect_frame s0) as (L1 & L2 & _ & L4 & _)
  end.
  simpl in *. unfold writes in *. simpl in *.
  split; unfold saveTimers, writes; rewrite ?H1, ?H4, ?L1, ?L4; simpl.
  - intros t Ht. inversion Ht.
  - intros t q v Ht. inversion Ht.
  - intros q v Ht. inversion Ht.
Qed.

Lemma reachable_consistent (s : State) : reachable s -> Consistent s.
Proof.
  intros (p & cf & es & ->). apply run_consistent, mount_consistent.
Qed.

Lemma reachable_step (s : State) (e : Event) :
  reachable s -> reachable (step s e).
Proof.
  intros (p & cf & es & ->). exists p, cf, (es ++ [e]). now rewrite run_snoc.
Qed.

(** ** Runs without an edit *)

Lemma clock_step (s : State) (e : Event) : clock s <= clock (step s e).
Proof.
  destruct e as [p|cf|v|b|d|id o]; simpl.
  - destruct (openFileChanged_frame p s) as (_ & _ & -> & _). lia.
  - unfold changedFilesChanged.
    destruct (diffFetchEffect_frame (diffMode s) (withChangedFiles cf s))
      as (_ & _ & -> & _).
    simpl. lia.
  - destruct (handleChange_frame v s) as (_ & _ & _ & _ & -> & _). lia.
  - unfold clickDiffMode. case_decide; [lia |].
    destruct (diffFetchEffect_frame b (setDiffMode b s)) as (_ & _ & -> & _).
    simpl. lia.
  - destruct (advance_frame d s) as (_ & _ & -> & _). lia.
  - destruct (resolve_frame id o s) as (_ & _ & -> & _). lia.
Qed.

Lemma run_idle (es : list Event) (s : State) :
  Forall (fun e => ~ isEdit e) es ->
  saveTimers s = [] ->
  saveTimers (run es s) = [] /\ writes (run es s) = writes s /\
  clock s <= clock (run es s).
Proof.
  revert s. induction es as [|e es IH]; intros s Hes Hs.
  - repeat split; [exact Hs | simpl; lia].
  - apply Forall_cons in Hes as [He Hes].
    change (run (e :: es) s) with (run es (step s e)).
    pose proof (clock_step s e) as Hclock.
    assert (saveTimers (step s e) = [] /\ writes (step s e) = writes s)
      as [Hs' Hw'].
    { assert ((forall d, e <> Advance d) \/ exists d, e = Advance d)
        as [Hq|[d ->]].
      { destruct e; try (left; discriminate). right. now eexists. }
      - destruct (quiet_step_frame s e He Hq) as (-> & _ & _ & ->).
        now split.
      - now apply advance_no_save. }
    destruct (IH (step s e) Hes Hs') as (H1 & H2 & H3).
    rewrite H1, H2, Hw'. repeat split. lia.
Qed.

Lemma run_armed (es : list Event) (s : State) (t : Timer)
    (p : option string) (v : string) :
  Forall (fun e => ~ isEdit e) es ->
  saveTimers s = [t] -> cb t = SaveCb p v -> clock s < due t ->
  (clock (run es s) < due t /\
   saveTimers (run es s) = [t] /\ writes (run es s) = writes s) \/
  (due t <= clock (run es s) /\
   saveTimers (run es s) = [] /\ writes (run es s) = writes s ++ [(p, v)]).
Proof.
  revert s. induction es as [|e es IH]; intros s Hes Hs Hcb Hlt.
  - left. now repeat split.
  - apply Forall_cons in Hes as [He Hes].
    change (run (e :: es) s) with (run es (step s e)).
    assert ((forall d, e <> Advance d) \/ exists d, e = Advance d) as [Hq|[d ->]].
    { destruct e; try (left; discriminate). right. now eexists. }
    + destruct (quiet_step_frame s e He Hq) as (H1 & _ & H3 & H4).
      rewrite <- H1 in Hs. rewrite <- H3 in Hlt.
      rewrite <- H4. now apply IH.
    + simpl. destruct (decide (clock s + d < due t)) as [Hd|Hd].
      * destruct (advance_before_due d s t Hs Hd) as [H1 H2].
        destruct (advance_frame d s) as (_ & _ & H3 & _).
        rewrite <- H2. apply IH; try assumption. now rewrite H3.
      * destruct (advance_past_due d s t p v Hs Hcb) as [H1 H2]; [lia |].
        destruct (advance_frame d s) as (_ & _ & H3 & _).
        destruct (run_idle es (advance d s) Hes H1) as (R1 & R2 & R3).
        right. rewrite R1, R2, H2. repeat split. lia.
Qed.

(** ** Time passing over a queue of at most one timer *)

Lemma advance_idle (d : N) (s : State) :
  timers s = [] -> advance d s = withClock (clock s + d) s.
Proof.
  intros Ht. unfold advance. cbv zeta. rewrite Ht, !filter_nil.
  destruct s; simpl in *; now subst.
Qed.

Lemma advance_single_wait (d : N) (s : State) (t : Timer) :
  timers s = [t] -> clock s + d < due t ->
  advance d s = withClock (clock s + d) s.
Proof.
  intros Ht Hlt. unfold advance. cbv zeta. rewrite Ht.
  rewrite (filter_cons_True _ t) by lia.
  rewrite (filter_cons_False _ t) by lia.
  rewrite !filter_nil.
  destruct s; simpl in *; now subst.
Qed.

Lemma advance_single_due (d : N) (s : State) (t : Timer) :
  timers s = [t] -> due t <= clock s + d ->
  advance d s = fire (withClock (clock s + d) (withTimers [] s)) (cb t).
Proof.
  intros Ht Hle. unfold advance. cbv zeta. rewrite Ht.
  rewrite (filter_cons_False _ t) by lia.
  rewrite (filter_cons_True _ t) by lia.
  reflexivity.
Qed.

Lemma filter_all (P : Timer -> Prop) `{!forall t, Decision (P t)}
    (l : list Timer) :
  Forall P l -> filter P l = l.
Proof.
  induction 1 as [|t l Ht _ IH]; [reflexivity |].
  now rewrite filter_cons_True, IH.
Qed.

Lemma handleChange_only_timer (value : string) (s : State) :
  Consistent s -> Forall isSave (timers s) ->
  Js.truthy (openFilePath s) = true ->
  timers (handleChange value s) =
    [ {| tid := nextId s; due := clock s + SAVE_DELAY;
         cb := SaveCb (openFilePath s) value |} ].
Proof.
  intros [Href _ _] Hall Hopen.
  destruct (handleChange_armed value s Href Hopen) as (Hs & _).
  destruct (handleChange_frame value s) as (_&_&_&_&_&_&_& Hin).
  rewrite <- Hs. unfold saveTimers. symmetry. apply filter_all.
  apply Forall_forall. intros t Ht.
  destruct (Hin t Ht) as [Hold|[Hsave _]]; [|exact Hsave].
  rewrite Forall_forall in Hall. now apply Hall.
Qed.

Lemma setSaveStatus_trace (v : option SaveStatus) (s : State) :
  v <> saveStatus s ->
  statusTrace (setSaveStatus v s) = statusTrace s ++ [v].
Proof. intros Hne. simpl. now rewrite decide_False. Qed.

Lemma save_course (latency : N) (value : string) (s : State) :
  Consistent s -> Forall isSave (timers s) ->
  Js.truthy (openFilePath s) = true ->
  saveCourse latency value s.
Proof.
  intros Hc Hall Hopen. unfold saveCourse.
  pose proof (handleChange_only_timer value s Hc Hall Hopen) as Ht1.
  destruct (handleChange_frame value s)
    as (_ & Hst1 & Hopen1 & _ & Hclock1 & _ & _ & _).
  set (s1 := handleChange value s) in *.
  assert (advance SAVE_DELAY s1 =
          call (writeFile (openFilePath s) value)
            (setSaveStatus (Some saving)
               (withClock (clock s1 + SAVE_DELAY) (withTimers [] s1)))) as Hs2.
  { rewrite (advance_single_due SAVE_DELAY s1 _ Ht1); [reflexivity |].
    simpl. lia. }
  set (s2 := advance SAVE_DELAY s1) in *.
  assert (advance latency s2 = withClock (clock s2 + latency) s2) as Hs2'.
  { apply advance_idle. now rewrite Hs2. }
  rewrite Hs2'.
  assert (pending (withClock (clock s2 + latency) s2) !! nextId s1
          = Some (writeFile (openFilePath s) value)) as Hpend.
  { rewrite Hs2. simpl. apply lookup_insert_eq. }
  set (s3 := resolve (nextId s1) (Fulfilled "")
               (withClock (clock s2 + latency) s2)).
  assert (s3 =
          setTimeout ClearStatusCb SAVED_DISPLAY
            (setSaveStatus (Some saved)
               (setSavedContent value
                  (withPending
                     (delete (nextId s1)
                        (pending (withClock (clock s2 + latency) s2)))
                     (withClock (clock s2 + latency) s2))))) as Hs3.
  { unfold s3, resolve. now rewrite Hpend. }
  assert (saveStatus s2 = Some saving) as Hst2 by now rewrite Hs2.
  assert (statusTrace s2 = statusTrace s1 ++ [Some saving]) as Htr2.
  { rewrite Hs2. simpl. rewrite Hst1. reflexivity. }
  assert (timers s3 =
          [ {| tid := nextId s2; due := clock s2 + latency + SAVED_DISPLAY;
               cb := ClearStatusCb |} ]) as Ht3.
  { rewrite Hs3. simpl. now rewrite Hs2. }
  assert (saveStatus s3 = Some saved) as Hst3 by now rewrite Hs3.
  assert (clock s3 = clock s2 + latency) as Hclock3 by now rewrite Hs3.
  assert (statusTrace s3 = statusTrace s1 ++ [Some saving; Some saved])
    as Htr3.
  { rewrite Hs3. simpl. rewrite Hst2, Htr2, <- app_assoc. reflexivity. }
  assert (advance SAVED_DISPLAY s3 =
          setSaveStatus None
            (withClock (clock s3 + SAVED_DISPLAY) (withTimers [] s3))) as Hs4.
  { rewrite (advance_single_due SAVED_DISPLAY s3 _ Ht3); [reflexivity |].
    simpl. lia. }
  repeat split.
  - exact Hst1.
  - exact Hst2.
  - exact Hpend.
  - exact Hst3.
  - now rewrite Hs3.
  - intros d Hd.
    rewrite (advance_single_wait d s3 _ Ht3); [exact Hst3 |].
    simpl. lia.
  - now rewrite Hs4.
  - rewrite Hs4. simpl. rewrite Hst3, Htr3, <- app_assoc. reflexivity.
Qed.

(** ** Loading a file *)

Lemma truthy_Some (p : string) : p <> "" -> Js.truthy (Some p) = true.
Proof. destruct p; [congruence | reflexivity]. Qed.

Lemma truthy_inv (o : option string) :
  Js.truthy o = true -> exists q, o = Some q /\ q <> "".
Proof.
  destruct o as [[|c q]|]; try discriminate.
  intros _. exists (String c q). split; [reflexivity | discriminate].
Qed.

Lemma diffFetchEffect_keeps (mode : bool) (s : State) (id : positive) :
  id <> nextId s ->
  let s' := diffFetchEffect mode s in
  pending s' !! id = pending s !! id /\
  saveStatus s' = saveStatus s /\ fileLoading s' = fileLoading s /\
  fileContent s' = fileContent s /\ savedContent s' = savedContent s /\
  openFilePath s' = openFilePath s /\ diffMode s' = diffMode s.
Proof.
  intros Hid. unfold diffFetchEffect.
  destruct (openFilePath s) as [p|] eqn:Hp; [|now repeat split].
  destruct (negb mode || negb (Js.truthy (Some p))
            || negb (Js.has (changedFiles s) p));
    [now repeat split |].
  simpl. rewrite lookup_insert_ne by congruence. now repeat split.
Qed.

Lemma select_loads (s : State) (path : string) :
  openFilePath s <> Some path -> path <> "" ->
  let s1 := openFileChanged (Some path) s in
  openFilePath s1 = Some path /\ saveStatus s1 = None /\
  fileLoading s1 = true /\ diffMode s1 = false /\
  pending s1 !! nextId s = Some (readFile path).
Proof.
  intros Hne Hpath. unfold openFileChanged.
  rewrite decide_False by congruence.
  unfold loadFileEffect.
  change (openFilePath (withOpenFilePath (Some path) s)) with (Some path).
  rewrite (truthy_Some path Hpath).
  change (negb true) with false. cbv iota.
  match goal with
  | |- context [diffFetchEffect ?m ?s0] =>
      destruct (diffFetchEffect_keeps m s0 (nextId s))
        as (H1 & H2 & H3 & _ & _ & H6 & H7)
  end.
  { simpl. apply Pos.succ_discr. }
  cbv zeta. rewrite H1, H2, H3, H6, H7. simpl.
  repeat split. apply lookup_insert_eq.
Qed.

Lemma read_fulfilled (s : State) (id : positive) (q content : string) :
  pending s !! id = Some (readFile q) ->
  let s' := resolve id (Fulfilled content) s in
  fileContent s' = content /\ savedContent s' = content /\
  isDirty s' = false /\ fileLoading s' = false /\
  saveStatus s' = saveStatus s /\ openFilePath s' = openFilePath s /\
  diffMode s' = diffMode s /\ diffLoading s' = diffLoading s.
Proof.
  intros Hp. unfold resolve. rewrite Hp. unfold isDirty. simpl.
  repeat split. rewrite bool_decide_eq_false_2; [reflexivity | tauto].
Qed.

Lemma read_rejected (s : State) (id : positive) (q : string) :
  pending s !! id = Some (readFile q) ->
  let s' := resolve id Rejected s in
  fileContent s' = LOAD_ERROR /\ savedContent s' = "" /\
  isDirty s' = bool_decide (openFilePath s <> None) /\
  fileLoading s' = false /\
  saveStatus s' = saveStatus s /\ openFilePath s' = openFilePath s /\
  diffMode s' = diffMode s /\ diffLoading s' = diffLoading s.
Proof.
  intros Hp. unfold resolve. rewrite Hp. unfold isDirty. simpl.
  repeat split.
Qed.

(** C4. Selecting a file other than the open one resets the status to
    none and asks for the content; when the content arrives, buffer and
    saved content are both that content, so the file is not dirty, the
    status is still none and the loading flag is off. Whenever a content
    fetch succeeds the buffer and the saved content are set to it. For
    /repo/file.ts holding "file content": buffer = saved = "file content",
    not dirty, status none. *)
Theorem file_load_success (s : State) (path content : string) :
  openFilePath s <> Some path -> path <> "" ->
  let s1 := handleFileSelect path s in
  let s2 := resolve (nextId s) (Fulfilled content) s1 in
  (openFilePath s1 = Some path /\ saveStatus s1 = None /\
   fileLoading s1 = true /\
   pending s1 !! nextId s = Some (readFile path)) /\
  (fileContent s2 = content /\ savedContent s2 = content /\
   isDirty s2 = false /\ saveStatus s2 = None /\ fileLoading s2 = false) /\
  (forall s' id q,
     pending s' !! id = Some (readFile q) ->
     fileContent (resolve id (Fulfilled content) s') = content /\
     savedContent (resolve id (Fulfilled content) s') = content /\
     isDirty (resolve id (Fulfilled content) s') = false) /\
  (let m := resolve 1%positive (Fulfilled "file content")
              (mount (Some "/repo/file.ts") []) in
   fileContent m = "file content" /\ savedContent m = "file content" /\
   isDirty m = false /\ saveStatus m = None).
Proof.
  intros Hne Hpath s1 s2.
  destruct (select_loads s path Hne Hpath) as (H1 & H2 & H3 & _ & H5).
  fold (handleFileSelect path s) in H1, H2, H3, H5. fold s1 in H1, H2, H3, H5.
  destruct (read_fulfilled s1 (nextId s) path content H5)
    as (R1 & R2 & R3 & R4 & R5 & _).
  fold s2 in R1, R2, R3, R4, R5.
  split; [now repeat split |].
  split; [rewrite R5; now repeat split |].
  split; [|now vm_compute].
  intros s' id q Hq.
  destruct (read_fulfilled s' id q content Hq) as (Q1 & Q2 & Q3 & _).
  now repeat split.
Qed.

Lemma file_load_success_witness :
  let s := mount None [] in
  let s2 := resolve (nextId s) (Fulfilled "file content")
              (handleFileSelect "/repo/file.ts" s) in
  fileContent s2 = "file content" /\ savedContent s2 = "file content" /\
  isDirty s2 = false /\ saveStatus s2 = None /\ fileLoading s2 = false.
Proof.
  apply (file_load_success (mount None []) "/repo/file.ts" "file content");
    discriminate.
Defined.

(** C5. When the content fetch of the selected file fails, the buffer is
    the sentinel "// Error loading file" and the saved content is empty, so
    the file shows as dirty; the loading flag is off, the editor shows the
    sentinel (once no diff fetch is running), and the next selection loads
    as usual. *)
Theorem file_load_failure (s : State) (path : string) :
  openFilePath s <> Some path -> path <> "" ->
  let s1 := handleFileSelect path s in
  let s2 := resolve (nextId s) Rejected s1 in
  LOAD_ERROR = "// Error loading file" /\
  (fileContent s2 = LOAD_ERROR /\ savedContent s2 = "" /\
   isDirty s2 = true /\ fileLoading s2 = false) /\
  editorArea s2 = (if diffLoading s2 then Spinner else ShowEditor LOAD_ERROR) /\
  (forall s' id q,
     pending s' !! id = Some (readFile q) -> openFilePath s' <> None ->
     fileContent (resolve id Rejected s') = LOAD_ERROR /\
     savedContent (resolve id Rejected s') = "" /\
     isDirty (resolve id Rejected s') = true /\
     fileLoading (resolve id Rejected s') = false) /\
  (forall path' content,
     path' <> path -> path' <> "" ->
     let s3 := resolve (nextId s2) (Fulfilled content)
                 (handleFileSelect path' s2) in
     fileContent s3 = content /\ savedContent s3 = content /\
     isDirty s3 = false /\ fileLoading s3 = false).
Proof.
  intros Hne Hpath s1 s2.
  destruct (select_loads s path Hne Hpath) as (H1 & H2 & H3 & H4 & H5).
  fold (handleFileSelect path s) in H1, H2, H3, H4, H5.
  fold s1 in H1, H2, H3, H4, H5.
  destruct (read_rejected s1 (nextId s) path H5)
    as (R1 & R2 & R3 & R4 & _ & R6 & R7 & R8).
  fold s2 in R1, R2, R3, R4, R6, R7, R8.
  assert (isDirty s2 = true) as Hdirty.
  { rewrite R3, H1. now apply bool_decide_eq_true_2. }
  split; [reflexivity |].
  split; [now repeat split |].
  split; [|split].
  - unfold editorArea. rewrite R6, H1, (truthy_Some path Hpath), R4, R7, H4.
    simpl. rewrite R1. now destruct (diffLoading s2).
  - intros s' id q Hq Hopen.
    destruct (read_rejected s' id q Hq) as (Q1 & Q2 & Q3 & Q4 & _).
    repeat split; try assumption.
    rewrite Q3. now apply bool_decide_eq_true_2.
  - intros path' content Hne' Hpath' s3.
    assert (openFilePath s2 <> Some path') as Hother
      by (rewrite R6, H1; congruence).
    destruct (select_loads s2 path' Hother Hpath') as (_ & _ & _ & _ & S5).
    fold (handleFileSelect path' s2) in S5.
    destruct (read_fulfilled _ (nextId s2) path' content S5)
      as (F1 & F2 & F3 & F4 & _).
    now repeat split.
Qed.

Lemma file_load_failure_witness :
  let s := mount None [] in
  let s2 := resolve (nextId s) Rejected (handleFileSelect "/repo/file.ts" s) in
  fileContent s2 = "// Error loading file" /\ savedContent s2 = "" /\
  isDirty s2 = true /\ fileLoading s2 = false.
Proof.
  apply (file_load_failure (mount None []) "/repo/file.ts"); discriminate.
Defined.

(** C8. Whenever the open file becomes another one, whatever the old and
    the new value and whether or not the diff was showing, the panel ends
    in the editing view: [diffMode] is false. *)
Theorem open_file_change_resets_diff_mode (s : State) (p : option string) :
  p <> openFilePath s ->
  diffMode (step s (OpenFile p)) = false /\
  openFilePath (step s (OpenFile p)) = p.
Proof.
  intros Hne. simpl. unfold openFileChanged.
  rewrite decide_False by exact Hne.
  destruct (diffFetchEffect_frame (diffMode s)
              (setDiffMode false (loadFileEffect (withOpenFilePath p s))))
    as (_ & _ & _ & _ & -> & ->).
  destruct (loadFileEffect_frame (withOpenFilePath p s))
    as (_ & _ & _ & _ & H5 & _).
  simpl. now rewrite H5.
Qed.

Lemma open_file_change_resets_diff_mode_witness :
  let s := run [ Settle 1%positive (Fulfilled "file content");
                 ClickDiffMode true ]
               (mount (Some "/repo/a.ts") ["/repo/a.ts"; "/repo/b.ts"]) in
  diffMode s = true /\
  diffMode (step s (OpenFile (Some "/repo/b.ts"))) = false /\
  diffMode (step s (OpenFile None)) = false.
Proof.
  split; [reflexivity |]. split.
  - apply (open_file_change_resets_diff_mode _ (Some "/repo/b.ts")).
    discriminate.
  - apply (open_file_change_resets_diff_mode _ None). discriminate.
Defined.

(** ** The empty diff *)

Lemma DiffView_NoChanges (diff : string) : DiffView diff = NoChanges <-> diff = "".
Proof.
  unfold DiffView. destruct (String.eqb_spec diff "") as [->|Hne].
  - tauto.
  - split; [discriminate | contradiction].
Qed.

Lemma DiffView_never_empty_list (diff : string) : DiffView diff <> Lines [].
Proof.
  unfold DiffView. destruct (String.eqb diff ""); [discriminate |].
  intros H. injection H as H.
  apply (f_equal length) in H. rewrite length_imap, length_split in H.
  discriminate.
Qed.

(** C7. The empty diff is told apart before any splitting and draws the one
    "No changes" indicator; no diff draws an empty list of rows (split
    first, the empty text would have drawn one blank row). A failed diff
    fetch stores the empty string as the diff, leaving the panel in the very
    state a fetch answering the empty diff leaves it in, so the two draw
    alike: whenever the diff is shown, it is "No changes". *)
Theorem empty_diff_is_no_changes :
  DiffView "" = NoChanges /\
  (forall diff, DiffView diff = NoChanges <-> diff = "") /\
  (forall diff, DiffView diff <> Lines []) /\
  imap diffLine (Js.split newline "") =
    [ {| key := 0; category := context; text := nbsp |} ] /\
  (forall s id p,
     pending s !! id = Some (getFileDiff p) ->
     diffContent (resolve id Rejected s) = "" /\
     diffLoading (resolve id Rejected s) = false /\
     resolve id Rejected s = resolve id (Fulfilled "") s /\
     editorArea (resolve id Rejected s)
       = editorArea (resolve id (Fulfilled "") s) /\
     forall r, editorArea (resolve id Rejected s) = ShowDiff r ->
               r = NoChanges).
Proof.
  split; [reflexivity |].
  split; [apply DiffView_NoChanges |].
  split; [apply DiffView_never_empty_list |].
  split; [reflexivity |].
  intros s id p Hp.
  assert (resolve id Rejected s = resolve id (Fulfilled "") s) as Heq
    by (unfold resolve; now rewrite Hp).
  assert (diffContent (resolve id Rejected s) = "") as Hdiff
    by (unfold resolve; now rewrite Hp).
  split; [exact Hdiff |].
  split; [unfold resolve; now rewrite Hp |].
  split; [exact Heq |].
  split; [now rewrite Heq |].
  intros r. unfold editorArea. rewrite Hdiff.
  destruct (openFilePath (resolve id Rejected s)) as [q|]; [|discriminate].
  destruct (negb (Js.truthy (Some q))); [discriminate |].
  destruct (fileLoading _ || diffLoading _); [discriminate |].
  destruct (diffMode _ && Js.has _ q); [|discriminate].
  intros H. now injection H as <-.
Qed.

Lemma empty_diff_is_no_changes_witness :
  let s := run [ Settle 1%positive (Fulfilled "file content");
                 ClickDiffMode true ]
               (mount (Some "/repo/a.ts") ["/repo/a.ts"]) in
  editorArea (resolve 2%positive Rejected s) = ShowDiff NoChanges /\
  editorArea (resolve 2%positive (Fulfilled "") s) = ShowDiff NoChanges.
Proof.
  destruct empty_diff_is_no_changes as (_ & _ & _ & _ & H).
  destruct (H (run [ Settle 1%positive (Fulfilled "file content");
                     ClickDiffMode true ]
                   (mount (Some "/repo/a.ts") ["/repo/a.ts"]))
              2%positive "/repo/a.ts" eq_refl) as (_ & _ & _ & Hsame & _).
  split; [reflexivity | rewrite <- Hsame; reflexivity].
Defined.

(** ** Saving *)

Lemma elem_of_writes (s : State) (p : option string) (v : string) :
  (p, v) ∈ writes s <-> writeFile p v ∈ calls s.
Proof.
  unfold writes. rewrite list_elem_of_omap. split.
  - intros (r & Hr & Hw). destruct r; try discriminate.
    simpl in Hw. now injection Hw as -> ->.
  - intros Hr. now exists (writeFile p v).
Qed.

Lemma reachable_recentlySaved : reachable recentlySaved.
Proof. unfold reachable, recentlySaved. eauto. Qed.

Lemma edit_then_run (s : State) (p value : string) (es : list Event) :
  Consistent s -> openFilePath s = Some p -> p <> "" ->
  Forall (fun e => ~ isEdit e) es ->
  (clock (run es (handleChange value s)) < clock s + SAVE_DELAY ->
     saveTimers (run es (handleChange value s))
       = saveTimers (handleChange value s) /\
     writes (run es (handleChange value s)) = writes s) /\
  (clock s + SAVE_DELAY <= clock (run es (handleChange value s)) ->
     saveTimers (run es (handleChange value s)) = [] /\
     writes (run es (handleChange value s)) = writes s ++ [(Some p, value)]).
Proof.
  intros Hc Hopen Hp Hes.
  assert (Js.truthy (openFilePath s) = true) as Htruthy
    by (rewrite Hopen; now apply truthy_Some).
  destruct (handleChange_armed value s (saves_by_ref s Hc) Htruthy)
    as (Harmed & _ & _).
  destruct (handleChange_frame value s)
    as (_ & _ & _ & _ & Hclock & _ & _ & _).
  rewrite Hopen in Harmed.
  destruct (run_armed es (handleChange value s) _ (Some p) value
              Hes Harmed eq_refl) as [(H1 & H2 & H3)|(H1 & H2 & H3)].
  { simpl. rewrite Hclock. unfold SAVE_DELAY. lia. }
  - simpl in H1. rewrite writes_handleChange in H3.
    split; [intros _; rewrite Harmed; now split | lia].
  - simpl in H1. rewrite writes_handleChange in H3.
    split; [lia | intros _; now split].
Qed.

Lemma typing_single_write (edits : list (N * string)) :
  forall (s : State) (p value : string),
    reachable s -> openFilePath s = Some p -> p <> "" ->
    Forall (fun e => e.1 < SAVE_DELAY) edits ->
    writes (advance SAVE_DELAY (run (typing edits) (handleChange value s)))
      = writes s ++ [(Some p, lastValue value edits)].
Proof.
  induction edits as [|[gap v] edits IH]; intros s p value Hreach Hopen Hp Hgaps.
  - destruct (edit_then_run s p value [Advance SAVE_DELAY]
                (reachable_consistent s Hreach) Hopen Hp) as [_ Hdone].
    { repeat constructor. intros H; exact H. }
    apply Hdone. simpl.
    destruct (advance_frame SAVE_DELAY (handleChange value s))
      as (_ & _ & -> & _).
    destruct (handleChange_frame value s) as (_ & _ & _ & _ & -> & _). lia.
  - apply Forall_cons in Hgaps as [Hgap Hgaps]. simpl in Hgap.
    change (run (typing ((gap, v) :: edits)) (handleChange value s))
      with (run (typing edits)
              (handleChange v (advance gap (handleChange value s)))).
    set (s2 := advance gap (handleChange value s)).
    assert (reachable s2) as Hreach2.
    { apply (reachable_step _ (Advance gap)).
      now apply (reachable_step _ (Edit value)). }
    assert (clock s2 = clock s + gap) as Hclock2.
    { unfold s2.
      destruct (advance_frame gap (handleChange value s)) as (_ & _ & -> & _).
      now destruct (handleChange_frame value s) as (_ & _ & _ & _ & -> & _). }
    assert (openFilePath s2 = Some p) as Hopen2.
    { unfold s2.
      destruct (advance_frame gap (handleChange value s))
        as (_ & _ & _ & -> & _).
      now destruct (handleChange_frame value s) as (_ & _ & -> & _). }
    assert (writes s2 = writes s) as Hwrites2.
    { destruct (edit_then_run s p value [Advance gap]
                  (reachable_consistent s Hreach) Hopen Hp) as [Hwait _].
      { repeat constructor. intros H; exact H. }
      apply Hwait. change (run _ _) with s2. lia. }
    rewrite (IH s2 p v Hreach2 Hopen2 Hp Hgaps), Hwrites2.
    unfold lastValue. rewrite fmap_cons, last_cons. simpl.
    now destruct (last edits.*2).
Qed.

(** C1, the claim as it stands, fails. On a panel whose previous save
    succeeded 1900 ms ago, the next edit sets the status to dirty; 100 ms
    later the display timer of the previous save sets it to none while the
    debounce is still pending; then come saving, saved and none. *)
Lemma stale_display_timer_breaks_course :
  reachable recentlySaved /\
  openFilePath recentlySaved = Some "/repo/file.ts" /\
  (let s1 := handleChange "b" recentlySaved in
   let s3 := resolve (nextId s1) (Fulfilled "") (advance SAVE_DELAY s1) in
   statusTrace (advance SAVED_DISPLAY s3)
     = statusTrace s1 ++ [None; Some saving; Some saved; None]) /\
  ~ saveCourse 0 "b" recentlySaved.
Proof.
  split; [apply reachable_recentlySaved |].
  split; [reflexivity |].
  split; [now vm_compute |].
  intros (_ & _ & _ & _ & _ & _ & _ & Htrace).
  vm_compute in Htrace. discriminate.
Qed.

(** C6. When a write fails, the status goes back to dirty; buffer and saved
    content are as they were; the failure arms no timer and makes no call.
    With no debounce timer pending, nothing short of an edit leads to
    another write; the next edit on an open file arms the debounce again
    and its write is the next one made. *)
Theorem failed_write_reverts_to_dirty
    (s : State) (id : positive) (p : option string) (v : string) :
  reachable s -> pending s !! id = Some (writeFile p v) ->
  let s' := resolve id Rejected s in
  (saveStatus s' = Some dirty /\
   fileContent s' = fileContent s /\ savedContent s' = savedContent s) /\
  (timers s' = timers s /\ calls s' = calls s /\
   pending s' = delete id (pending s)) /\
  (saveTimers s = [] ->
   forall es, Forall (fun e => ~ isEdit e) es ->
              writes (run es s') = writes s) /\
  (forall q value es,
     openFilePath s = Some q -> q <> "" ->
     Forall (fun e => ~ isEdit e) es ->
     clock s + SAVE_DELAY <= clock (run es (handleChange value s')) ->
     writes (run es (handleChange value s')) = writes s ++ [(Some q, value)]).
Proof.
  intros Hreach Hp s'.
  assert (s' = setSaveStatus (Some dirty) (withPending (delete id (pending s)) s))
    as Hs' by (unfold s', resolve; now rewrite Hp).
  split; [now rewrite Hs' |].
  split; [now rewrite Hs' |].
  split.
  - intros Hnone es Hes.
    destruct (run_idle es s' Hes) as (_ & -> & _); now rewrite Hs'.
  - intros q value es Hopen Hq Hes Hclock.
    assert (reachable s') as Hreach'
      by apply (reachable_step s (Settle id Rejected) Hreach).
    assert (openFilePath s' = Some q) as Hopen' by now rewrite Hs'.
    destruct (edit_then_run s' q value es
                (reachable_consistent s' Hreach') Hopen' Hq Hes)
      as [_ Hdone].
    assert (clock s' = clock s) as Hc by now rewrite Hs'.
    assert (writes s' = writes s) as Hw by now rewrite Hs'.
    rewrite Hc, Hw in Hdone. now apply Hdone.
Qed.

Lemma failed_write_reverts_to_dirty_witness :
  let s := run [ Settle 1%positive (Fulfilled "file content");
                 Edit "a"; Advance 800 ]
               (mount (Some "/repo/file.ts") []) in
  let s' := resolve 3%positive Rejected s in
  saveStatus s = Some saving /\
  (saveStatus s' = Some dirty /\
   fileContent s' = "a" /\ savedContent s' = "file content") /\
  writes (run [Advance 5000] s') = [(Some "/repo/file.ts", "a")] /\
  writes (run [Advance 800] (handleChange "ab" s'))
    = [(Some "/repo/file.ts", "a"); (Some "/repo/file.ts", "ab")].
Proof.
  intros s s'.
  assert (reachable s) as Hreach by (unfold reachable, s; eauto).
  destruct (failed_write_reverts_to_dirty s 3%positive
              (Some "/repo/file.ts") "a" Hreach eq_refl)
    as (Hst & _ & Hidle & Hnext).
  split; [reflexivity |]. split; [exact Hst |]. split.
  - apply (Hidle eq_refl [Advance 5000]).
    repeat constructor. intros H; exact H.
  - apply (Hnext "/repo/file.ts" "ab" [Advance 800] eq_refl).
    + discriminate.
    + repeat constructor. intros H; exact H.
    + vm_compute. discriminate.
Defined.

(** C10. An edit while no file is open sets the status to dirty and cancels
    the pending debounce timer, arms no timer and makes no call, and nothing
    short of another edit leads to a write afterwards. In every state a
    panel can reach, each write that was made carries a path: never null,
    never the empty string. *)
Theorem edit_without_open_file_never_writes (s : State) (value : string) :
  reachable s -> openFilePath s = None ->
  (let s1 := handleChange value s in
   saveStatus s1 = Some dirty /\ fileContent s1 = value /\
   saveTimers s1 = [] /\ (forall t, t ∈ timers s1 -> t ∈ timers s) /\
   calls s1 = calls s /\
   forall es, Forall (fun e => ~ isEdit e) es ->
              writes (run es s1) = writes s) /\
  (forall p0 cf es path content,
     writeFile path content ∈ calls (run es (mount p0 cf)) ->
     exists q, path = Some q /\ q <> "").
Proof.
  intros Hreach Hopen.
  pose proof (reachable_consistent s Hreach) as Hc.
  assert (Js.truthy (openFilePath s) = false) as Hfalsy by now rewrite Hopen.
  destruct (handleChange_unarmed value s (saves_by_ref s Hc) Hfalsy)
    as (Hnone & _).
  destruct (handleChange_frame value s)
    as (Hbuf & Hst & _ & _ & _ & Hcalls & _ & Hin).
  split.
  - repeat split; try assumption.
    + intros t Ht. destruct (Hin t Ht) as [Hold|[_ Htruthy]];
        [exact Hold | congruence].
    + intros es Hes.
      destruct (run_idle es (handleChange value s) Hes Hnone) as (_ & -> & _).
      apply writes_handleChange.
  - intros p0 cf es path content Hcall.
    apply truthy_inv.
    apply (writes_have_path _ (run_consistent es _ (mount_consistent p0 cf))
             path content).
    now apply elem_of_writes.
Qed.

Lemma edit_without_open_file_never_writes_witness :
  let s1 := handleChange "x" (mount None []) in
  saveStatus s1 = Some dirty /\ timers s1 = [] /\
  calls (run [Advance 800; Advance 2000] s1) = [].
Proof.
  intros s1.
  assert (reachable (mount None [])) as Hreach
    by (exists None, [], []; reflexivity).
  destruct (edit_without_open_file_never_writes (mount None []) "x"
              Hreach eq_refl) as ((Hst & _) & _).
  split; [exact Hst |]. split; reflexivity.
Defined.

(** * Further properties *)

(** ** Splitting and the last piece *)

Lemma split_app_sep (sep : ascii) (a b : string) :
  Js.split sep (a +:+ String sep b) = Js.split sep a ++ Js.split sep b.
Proof.
  induction a as [|c a IH].
  - rewrite append_nil. simpl. now rewrite Ascii.eqb_refl.
  - rewrite append_cons. simpl. rewrite IH.
    destruct (Ascii.eqb c sep); [reflexivity |].
    pose proof (split_not_nil sep a) as Hnil.
    destruct (Js.split sep a); [congruence | reflexivity].
Qed.

Lemma split_no_sep (sep : ascii) (s : string) :
  Js.occurrences sep s = 0%nat -> Js.split sep s = [s].
Proof.
  induction s as [|c s IH]; simpl; [reflexivity |].
  destruct (Ascii.eqb c sep); [discriminate |].
  intros H. now rewrite IH.
Qed.

Lemma split_pieces_no_sep (sep : ascii) (s : string) :
  Forall (fun piece => Js.occurrences sep piece = 0%nat) (Js.split sep s).
Proof.
  induction s as [|c s IH]; simpl.
  - now repeat constructor.
  - destruct (Ascii.eqb c sep) eqn:Hc; [now constructor |].
    destruct (Js.split sep s) as [|piece pieces].
    + constructor; [|constructor]. simpl. now rewrite Hc.
    + apply Forall_cons in IH as [Hp Hps].
      constructor; [|exact Hps]. simpl. now rewrite Hc.
Qed.

Lemma join_snoc (sep : ascii) (front : list string) (x : string) :
  front <> [] ->
  Js.join sep (front ++ [x]) = Js.join sep front +:+ String sep x.
Proof.
  induction front as [|y front IH]; [congruence |]. intros _.
  destruct front as [|z front]; [reflexivity |].
  change ((y :: z :: front) ++ [x]) with (y :: ((z :: front) ++ [x])).
  rewrite (join_cons sep y ((z :: front) ++ [x])) by discriminate.
  rewrite (join_cons sep y (z :: front)) by discriminate.
  rewrite IH by discriminate.
  induction y as [|c y IHy]; [reflexivity |].
  rewrite !append_cons. now rewrite IHy.
Qed.

Lemma last_split (sep : ascii) (s : string) :
  exists front piece,
    Js.split sep s = front ++ [piece] /\ last (Js.split sep s) = Some piece.
Proof.
  pose proof (split_not_nil sep s) as Hnil.
  destruct (Js.split sep s) as [|x l] using rev_ind; [congruence |].
  exists l, x. split; [reflexivity | apply last_snoc].
Qed.

Lemma fileName_behind_dir (dir base : string) :
  Js.occurrences "/"%char base = 0%nat ->
  fileName (Some (dir +:+ String "/"%char base)) = Some base.
Proof.
  intros Hbase. simpl.
  rewrite split_app_sep, (split_no_sep _ base Hbase). apply last_snoc.
Qed.

(** X1. The file name shown in the tab is the part of the path after its
    last slash: it holds no slash, the path is either the name itself or a
    directory part, a slash and the name, and a name without slash is found
    again behind any directory part. A path ending in a slash has the empty
    name. *)
Theorem fileName_is_last_segment (p : string) :
  exists name,
    fileName (Some p) = Some name /\
    Js.occurrences "/"%char name = 0%nat /\
    (p = name \/ exists dir, p = dir +:+ String "/"%char name) /\
    (forall dir base,
       Js.occurrences "/"%char base = 0%nat ->
       fileName (Some (dir +:+ String "/"%char base)) = Some base) /\
    fileName (Some (p +:+ "/")) = Some "".
Proof.
  destruct (last_split "/"%char p) as (front & name & Hsplit & Hlast).
  exists name. simpl. split; [exact Hlast |]. split; [|split; [|split]].
  - pose proof (split_pieces_no_sep "/"%char p) as Hall.
    rewrite Hsplit in Hall. apply Forall_app in Hall as [_ Hall].
    now apply Forall_cons in Hall as [Hall _].
  - pose proof (join_split "/"%char p) as Hjoin. rewrite Hsplit in Hjoin.
    destruct front as [|x front]; [now left |].
    right. exists (Js.join "/"%char (x :: front)).
    rewrite <- Hjoin. now apply join_snoc.
  - intros dir base Hbase. now apply fileName_behind_dir.
  - change (p +:+ "/") with (p +:+ String "/"%char "").
    rewrite split_app_sep. apply last_snoc.
Qed.

(** ** The language of a file *)

Lemma lowerChar_dot (c : ascii) : lowerChar c = "."%char <-> c = "."%char.
Proof.
  destruct c as [[] [] [] [] [] [] [] []]; vm_compute;
    split; intros H; try reflexivity; discriminate H.
Qed.

Lemma lowerChar_idem (c : ascii) : lowerChar (lowerChar c) = lowerChar c.
Proof. destruct c as [[] [] [] [] [] [] [] []]; reflexivity. Qed.

Lemma toLowerCase_idem (s : string) : toLowerCase (toLowerCase s) = toLowerCase s.
Proof.
  induction s as [|c s IH]; simpl; [reflexivity |].
  now rewrite lowerChar_idem, IH.
Qed.

Lemma split_toLowerCase (s : string) :
  Js.split "."%char (toLowerCase s) = toLowerCase <$> Js.split "."%char s.
Proof.
  induction s as [|c s IH]; simpl; [reflexivity |].
  rewrite IH.
  destruct (Ascii.eqb_spec c "."%char) as [->|Hne].
  - reflexivity.
  - destruct (Ascii.eqb_spec (lowerChar c) "."%char) as [Heq|_].
    + exfalso. apply Hne. apply (proj1 (lowerChar_dot c)). exact Heq.
    + pose proof (split_not_nil "."%char s) as Hnil.
      destruct (Js.split "."%char s); [congruence | reflexivity].
Qed.

Lemma getLanguageExtension_lower (filename : string) :
  getLanguageExtension (toLowerCase filename) = getLanguageExtension filename.
Proof.
  unfold getLanguageExtension. rewrite split_toLowerCase, fmap_last.
  destruct (last (Js.split "."%char filename)) as [ext|]; simpl;
    [now rewrite toLowerCase_idem | reflexivity].
Qed.

(** X2. The language does not depend on the case of the letters A to Z in
    the file name: two names that are equal once lower-cased get the same
    language. *)
Theorem language_ignores_case (f g : string) :
  toLowerCase f = toLowerCase g ->
  getLanguageExtension f = getLanguageExtension g.
Proof.
  intros H.
  now rewrite <- (getLanguageExtension_lower f), H, getLanguageExtension_lower.
Qed.

Lemma language_ignores_case_witness :
  getLanguageExtension "App.TSX" = getLanguageExtension "app.tsx" /\
  getLanguageExtension "app.tsx" = Some (javascript true true).
Proof.
  split; [|reflexivity].
  apply (language_ignores_case "App.TSX" "app.tsx"). reflexivity.
Defined.

(** X3. Only what follows the last dot of the name decides the language:
    behind any stem, an extension without a dot gives the language it gives
    alone, and a name without any dot is taken as its own extension. *)
Theorem language_by_last_dot (stem ext : string) :
  Js.occurrences "."%char ext = 0%nat ->
  getLanguageExtension (stem +:+ String "."%char ext)
    = languageOfExtension (toLowerCase ext) /\
  getLanguageExtension ext = languageOfExtension (toLowerCase ext).
Proof.
  intros Hext. unfold getLanguageExtension.
  rewrite split_app_sep, (split_no_sep _ ext Hext), last_snoc.
  split; reflexivity.
Qed.

Lemma language_by_last_dot_witness :
  getLanguageExtension "editor.test.ts" = Some (javascript true true) /\
  getLanguageExtension "json" = Some json.
Proof.
  split.
  - apply (language_by_last_dot "editor.test" "ts"). reflexivity.
  - apply (language_by_last_dot "" "json"). reflexivity.
Defined.

(** X4. The editor always gets the warm theme first, then the dark theme
    when dark mode is on, then the language of the file; the language is
    read from the file name, so dots in the directories of the path play no
    part. *)
Theorem extensions_follow_file_name
    (darkMode : bool) (dir base : string) :
  Js.occurrences "/"%char base = 0%nat -> base <> "" ->
  extensions darkMode (Some (dir +:+ String "/"%char base)) =
    [warmTheme] ++ (if darkMode then [oneDark] else [])
    ++ match getLanguageExtension base with
       | Some l => [language l]
       | None => []
       end.
Proof.
  intros Hbase Hne. unfold extensions.
  rewrite (fileName_behind_dir dir base Hbase), (truthy_Some base Hne).
  reflexivity.
Qed.

Lemma extensions_follow_file_name_witness :
  extensions true (Some "/repo/v1.ts/Makefile") = [warmTheme; oneDark] /\
  extensions false (Some "/repo/src/app.py") = [warmTheme; language python].
Proof.
  split.
  - apply (extensions_follow_file_name true "/repo/v1.ts" "Makefile");
      [reflexivity | discriminate].
  - apply (extensions_follow_file_name false "/repo/src" "app.py");
      [reflexivity | discriminate].
Defined.

(** ** More on the diff view *)

Lemma diffLine_text (i : nat) (line : string) :
  text (diffLine i line) <> "" /\
  (line <> "" -> text (diffLine i line) = line) /\
  (line = "" ->
   text (diffLine i line) = nbsp /\ category (diffLine i line) = context).
Proof.
  unfold diffLine. simpl. destruct (String.eqb_spec line "") as [->|Hne].
  - split; [discriminate |]. split; [congruence |]. now split.
  - split; [exact Hne |]. split; [reflexivity | contradiction].
Qed.

(** X5. Every row of the diff view carries its index as key and a text
    that is never empty: the text is the line itself, except for a blank
    line, which is drawn as a non-breaking space in the context colour. *)
Theorem diff_rows_never_blank (diff : string) (rows : list DiffLine) :
  DiffView diff = Lines rows ->
  forall i row,
    rows !! i = Some row ->
    key row = i /\ text row <> "" /\
    exists line,
      Js.split newline diff !! i = Some line /\
      category row = classify line /\
      (line <> "" -> text row = line) /\
      (line = "" -> text row = nbsp /\ category row = context).
Proof.
  unfold DiffView. destruct (String.eqb diff ""); [discriminate |].
  intros H i row Hrow. injection H as <-.
  rewrite list_lookup_imap in Hrow.
  destruct (Js.split newline diff !! i) as [line|]; [|discriminate].
  simpl in Hrow. injection Hrow as <-.
  destruct (diffLine_text i line) as (H1 & H2 & H3).
  split; [reflexivity |]. split; [exact H1 |].
  exists line. split; [reflexivity |]. split; [reflexivity |].
  split; assumption.
Qed.

Lemma diff_rows_never_blank_witness :
  exists row,
    DiffView "a

b" = Lines [diffLine 0 "a"; row; diffLine 2 "b"] /\
    key row = 1%nat /\ text row = nbsp /\ category row = context.
Proof.
  exists (diffLine 1 "").
  split; [reflexivity |].
  destruct (diff_rows_never_blank "a

b" [diffLine 0 "a"; diffLine 1 ""; diffLine 2 "b"] eq_refl 1%nat
              (diffLine 1 "") eq_refl) as (Hkey & _ & line & Hline & _ & _ & Hblank).
  injection Hline as <-.
  split; [exact Hkey | now apply Hblank].
Defined.

Lemma imap_snoc {A B : Type} (f : nat -> A -> B) (l : list A) (x : A) :
  imap f (l ++ [x]) = imap f l ++ [f (length l) x].
Proof.
  revert f. induction l as [|y l IH]; intros f; [reflexivity |].
  simpl. now rewrite IH.
Qed.

(** X6. A diff text that ends in a line feed is drawn with one more row
    than it has lines: the rows of the text before the line feed, and a
    blank context row behind them. *)
Theorem trailing_line_feed_adds_blank_row (diff : string) :
  DiffView (diff +:+ String newline "") =
    Lines (imap diffLine (Js.split newline diff)
           ++ [ {| key := S (Js.occurrences newline diff);
                   category := context; text := nbsp |} ]).
Proof.
  unfold DiffView.
  destruct (String.eqb_spec (diff +:+ String newline "") "") as [Heq|_].
  - destruct diff; discriminate Heq.
  - rewrite split_app_sep.
    change (Js.split newline "") with [""].
    now rewrite imap_snoc, length_split.
Qed.

(** X7. The two header lines of a unified diff, which begin with +++ and
    with ---, are drawn neither as addition nor as deletion nor as
    metadata but as context, as is every line that begins with a space. *)
Theorem file_header_lines_are_context (line : string) :
  starts line "+++" \/ starts line "---" \/ starts line " " ->
  classify line = context.
Proof.
  intros [[r ->]|[[r ->]|[r ->]]]; destruct r; reflexivity.
Qed.

Lemma file_header_lines_are_context_witness :
  classify "+++ b/src/app.ts" = context /\
  classify "--- a/src/app.ts" = context.
Proof.
  split; apply file_header_lines_are_context.
  - left. now exists " b/src/app.ts".
  - right. left. now exists " a/src/app.ts".
Defined.

(** ** More on the sidebar list and the marks *)

Lemma sortInsert_not_nil {A : Type} (f : A -> A -> Z) (x : A) (l : list A) :
  sortInsert f x l <> [].
Proof. destruct l as [|y l]; simpl; [|destruct (f x y <=? 0)%Z]; discriminate. Qed.

Lemma length_sort {A : Type} (f : A -> A -> Z) (l : list A) :
  length (sort f l) = length l.
Proof.
  induction l as [|x l IH]; [reflexivity |]. simpl. rewrite <- IH.
  generalize (sort f l). intros m.
  induction m as [|y m IHm]; simpl; [reflexivity |].
  destruct (f x y <=? 0)%Z; simpl; [reflexivity | now rewrite IHm].
Qed.

(** X8. Whatever the comparator, the sidebar list has one entry per changed
    path when there is a working directory, and is empty, so that the
    "Changed" section is not drawn, exactly when no path has changed or the
    working directory is missing or empty. *)
Theorem sidebar_list_length
    (localeCompare : string -> string -> Z)
    (changedFiles : list string) (cwd : option string) :
  length (relativeChangedFiles localeCompare changedFiles cwd) =
    (if Js.truthy cwd then length changedFiles else 0%nat) /\
  (relativeChangedFiles localeCompare changedFiles cwd = [] <->
     changedFiles = [] \/ Js.truthy cwd = false).
Proof.
  assert (length (relativeChangedFiles localeCompare changedFiles cwd) =
          (if Js.truthy cwd then length changedFiles else 0%nat)) as Hlen.
  { unfold relativeChangedFiles. destruct cwd as [[|c dir]|]; try reflexivity.
    - now destruct changedFiles.
    - destruct changedFiles as [|fp l]; [reflexivity |].
      change (length (sort (fun a b => localeCompare (rel a) (rel b))
                        (map (relativeEntry (String c dir)) (fp :: l)))
              = length (fp :: l)).
      now rewrite length_sort, length_map. }
  split; [exact Hlen |].
  rewrite <- length_zero_iff_nil, Hlen.
  destruct (Js.truthy cwd); [|tauto].
  rewrite length_zero_iff_nil. intuition discriminate.
Qed.

Lemma has_subset (small large : list string) (x : string) :
  small ⊆ large -> Js.has small x = true -> Js.has large x = true.
Proof.
  unfold Js.has. rewrite !bool_decide_eq_true. auto.
Qed.

(** X9. Marks only grow with the changed set: a node marked for a set of
    changed paths is marked for every larger set, and for the empty set no
    node is marked. *)
Theorem marks_grow_with_changed_set
    (small large : list string) (node : TreeNode) :
  small ⊆ large ->
  (hasChangedDescendant small node = true ->
   hasChangedDescendant large node = true) /\
  (changedMark small node = true -> changedMark large node = true) /\
  hasChangedDescendant [] node = false /\
  changedMark [] node = false.
Proof.
  intros Hsub.
  assert (forall cf, changedMark cf node = true ->
                     hasChangedDescendant cf node = true) as Hdown.
  { intros cf H. apply hasChangedDescendant_subtree.
    now apply changedMark_subtree. }
  assert (hasChangedDescendant [] node = false) as Hnone.
  { apply not_true_is_false. intros H.
    apply hasChangedDescendant_subtree in H as (m & _ & Hm). inversion Hm. }
  assert (hasChangedDescendant small node = true ->
          hasChangedDescendant large node = true) as Hmono.
  { rewrite !hasChangedDescendant_subtree.
    intros (m & Hm & Hin). exists m. auto. }
  split; [exact Hmono |]. split; [|split; [exact Hnone |]].
  - unfold changedMark, isChanged, hasChanged.
    destruct (isDir node); simpl; rewrite ?orb_false_r; [exact Hmono |].
    now apply has_subset.
  - apply not_true_is_false. intros H. apply Hdown in H. congruence.
Qed.

Lemma marks_grow_with_changed_set_witness :
  changedMark ["/repo/src/app.ts"; "/repo/README.md"] exampleTree = true.
Proof.
  apply (marks_grow_with_changed_set ["/repo/src/app.ts"]
           ["/repo/src/app.ts"; "/repo/README.md"] exampleTree).
  - intros x Hx. apply list_elem_of_singleton in Hx as ->.
    apply list_elem_of_here.
  - reflexivity.
Defined.

(** ** More on the debounce *)

Lemma mount_fresh (p : option string) (cf : list string) :
  saveTimers (mount p cf) = [] /\ writes (mount p cf) = [].
Proof.
  unfold mount.
  match goal with
  | |- context [diffFetchEffect _ (setDiffMode _ (loadFileEffect ?s0))] =>
      destruct (diffFetchEffect_frame false
                  (setDiffMode false (loadFileEffect s0)))
        as (H1 & _ & _ & H4 & _);
      destruct (loadFileEffect_frame s0) as (L1 & _ & _ & L4 & _)
  end.
  unfold saveTimers. rewrite H1, H4. simpl. unfold writes in *. simpl in *.
  now rewrite L1, L4.
Qed.

Lemma saveTimers_cases (s : State) :
  (length (saveTimers s) <= 1)%nat ->
  saveTimers s = [] \/
  exists t p v, saveTimers s = [t] /\ cb t = SaveCb p v.
Proof.
  intros Hlen. destruct (saveTimers s) as [|t [|u l]] eqn:Hs.
  - now left.
  - right. assert (t ∈ saveTimers s) as Hin by (rewrite Hs; apply list_elem_of_here).
    apply list_elem_of_filter in Hin as [Hsave _].
    unfold isSave in Hsave. destruct (cb t) as [p v|] eqn:Hcb; [|contradiction].
    now exists t, p, v.
  - simpl in Hlen. lia.
Qed.

Lemma advance_heldValues (d : N) (s : State) :
  (length (saveTimers s) <= 1)%nat ->
  (length (saveTimers (advance d s)) <= 1)%nat /\
  heldValues (advance d s) = heldValues s.
Proof.
  intros Hlen. unfold heldValues.
  destruct (saveTimers_cases s Hlen) as [Hs|(t & p & v & Hs & Hcb)].
  - destruct (advance_no_save d s Hs) as [-> ->]. rewrite Hs.
    split; [simpl; lia | reflexivity].
  - destruct (decide (clock s + d < due t)) as [Hd|Hd].
    + destruct (advance_before_due d s t Hs Hd) as [-> ->]. rewrite Hs.
      split; [simpl; lia | reflexivity].
    + destruct (advance_past_due d s t p v Hs Hcb) as [-> ->]; [lia |].
      rewrite Hs, omap_cons_eq, (timerWrite_save t p v Hcb).
      split; [simpl; lia | now rewrite app_nil_r].
Qed.

Lemma heldValues_writes (s : State) (typed : list string) :
  heldValues s `sublist_of` typed -> (writes s).*2 `sublist_of` typed.
Proof.
  unfold heldValues. rewrite fmap_app. intros H.
  etransitivity; [|exact H]. now apply sublist_inserts_r.
Qed.

Lemma step_heldValues (s : State) (e : Event) (typed : list string) :
  Consistent s -> (length (saveTimers s) <= 1)%nat ->
  heldValues s `sublist_of` typed ->
  (length (saveTimers (step s e)) <= 1)%nat /\
  heldValues (step s e) `sublist_of` typed ++ editedValues [e].
Proof.
  intros Hc Hlen Hsub.
  assert ((forall d, e <> Advance d) /\ ~ isEdit e
          \/ (exists d, e = Advance d) \/ exists v, e = Edit v)
    as [[Hq Hne]|[[d ->]|[v ->]]].
  { destruct e; try (left; split; [discriminate | intros H; exact H]).
    - right. right. now eexists.
    - right. left. now eexists. }
  - destruct (quiet_step_frame s e Hne Hq) as (H1 & _ & _ & H4).
    unfold heldValues. rewrite H1, H4.
    replace (editedValues [e]) with (@nil string)
      by (destruct e; try reflexivity; exfalso; now apply Hne).
    rewrite app_nil_r. now split.
  - destruct (advance_heldValues d s Hlen) as [Hl Hv]. simpl.
    rewrite Hv, app_nil_r. now split.
  - simpl. change (editedValues [Edit v]) with [v].
    apply heldValues_writes in Hsub.
    unfold heldValues. rewrite writes_handleChange.
    destruct (Js.truthy (openFilePath s)) eqn:Hopen.
    + destruct (handleChange_armed v s (saves_by_ref s Hc) Hopen) as (-> & _).
      split; [simpl; lia |].
      rewrite fmap_app. apply sublist_app; [exact Hsub | reflexivity].
    + destruct (handleChange_unarmed v s (saves_by_ref s Hc) Hopen) as (-> & _).
      split; [simpl; lia |].
      simpl. rewrite app_nil_r. now apply sublist_inserts_r.
Qed.

Lemma editedValues_snoc (es : list Event) (e : Event) :
  editedValues (es ++ [e]) = editedValues es ++ editedValues [e].
Proof. unfold editedValues. apply omap_app. Qed.

Lemma run_tracked (p0 : option string) (cf : list string) (es : list Event) :
  (length (saveTimers (run es (mount p0 cf))) <= 1)%nat /\
  heldValues (run es (mount p0 cf)) `sublist_of` editedValues es.
Proof.
  induction es as [|e es [IHlen IHsub]] using rev_ind.
  - unfold heldValues. simpl.
    destruct (mount_fresh p0 cf) as [-> ->]. split; [simpl; lia | reflexivity].
  - rewrite run_snoc, editedValues_snoc.
    apply step_heldValues; try assumption.
    apply run_consistent, mount_consistent.
Qed.

(** X10. A panel never has more than one debounce timer pending: in every
    state it can reach the queue holds no debounce timer, or exactly one,
    which is the one [saveTimerRef] holds and which was armed with a
    non-empty path. *)
Theorem one_debounce_timer (s : State) :
  reachable s ->
  saveTimers s = [] \/
  exists t p v,
    saveTimers s = [t] /\ saveTimerRef s = Some (tid t) /\
    cb t = SaveCb (Some p) v /\ p <> "".
Proof.
  intros (p0 & cf & es & ->).
  destruct (run_tracked p0 cf es) as [Hlen _].
  pose proof (run_consistent es _ (mount_consistent p0 cf)) as Hc.
  destruct (saveTimers_cases _ Hlen) as [Hs|(t & p & v & Hs & Hcb)];
    [now left | right].
  assert (t ∈ saveTimers (run es (mount p0 cf))) as Hin
    by (rewrite Hs; apply list_elem_of_here).
  destruct (truthy_inv p (saves_have_path _ Hc t p v Hin Hcb)) as (q & -> & Hq).
  exists t, q, v. repeat split; try assumption.
  now apply (saves_by_ref _ Hc).
Qed.

Lemma one_debounce_timer_witness :
  let s := run [ Settle 1%positive (Fulfilled "file content");
                 Edit "a"; Advance 300; Edit "ab"; Advance 300; Edit "abc" ]
               (mount (Some "/repo/file.ts") []) in
  exists t, saveTimers s = [t] /\ cb t = SaveCb (Some "/repo/file.ts") "abc".
Proof.
  intros s.
  assert (reachable s) as Hreach by (unfold reachable, s; eauto).
  destruct (one_debounce_timer s Hreach) as [Hnone|(t & p & v & Hs & _)].
  - vm_compute in Hnone. discriminate Hnone.
  - exists t. split; [exact Hs |].
    vm_compute in Hs. injection Hs as <-. reflexivity.
Defined.

(** X11. Whatever happens to a panel, the values it writes are, in order, a
    selection of the values the edits put in the buffer: each edit is
    written at most once, the writes come in the order of the edits, and
    nothing that was not typed (such as the content a load put in the
    buffer, or the load-error sentinel) is ever written. *)
Theorem writes_follow_typing
    (p0 : option string) (cf : list string) (es : list Event) :
  (writes (run es (mount p0 cf))).*2 `sublist_of` editedValues es /\
  (length (writes (run es (mount p0 cf))) <= length (editedValues es))%nat /\
  (forall path v,
     writeFile path v ∈ calls (run es (mount p0 cf)) -> Edit v ∈ es).
Proof.
  destruct (run_tracked p0 cf es) as [_ Hsub].
  apply heldValues_writes in Hsub.
  split; [exact Hsub |]. split.
  - apply sublist_length in Hsub. now rewrite length_fmap in Hsub.
  - intros path v Hcall. apply elem_of_writes in Hcall.
    assert (v ∈ editedValues es) as Hv.
    { apply (elem_of_sublist _ _ _ (list_elem_of_fmap_2 snd _ _ Hcall) Hsub). }
    apply list_elem_of_omap in Hv as (e & He & Hval).
    destruct e; try discriminate. now injection Hval as ->.
Qed.

Lemma unmount_cancels (s : State) :
  Consistent s -> saveTimers (unmount s) = [] /\ writes (unmount s) = writes s.
Proof.
  intros Hc. pose proof (cancelled_saves s (saves_by_ref s Hc)) as Hnone.
  unfold unmount. destruct (saveTimerRef s); now split.
Qed.

(** X12. Unmounting the panel cancels the pending save: however much time
    passes afterwards and whichever promises settle, no further write is
    made, so an edit made less than 800 ms before the panel goes away is
    never written. *)
Theorem unmount_drops_pending_save (s : State) (es : list Event) :
  reachable s -> Forall (fun e => ~ isEdit e) es ->
  saveTimers (unmount s) = [] /\
  writes (run es (unmount s)) = writes s.
Proof.
  intros Hreach Hes.
  destruct (unmount_cancels s (reachable_consistent s Hreach)) as [Hnone Hw].
  split; [exact Hnone |].
  destruct (run_idle es (unmount s) Hes Hnone) as (_ & -> & _). exact Hw.
Qed.

Lemma unmount_drops_pending_save_witness :
  let s := run [ Settle 1%positive (Fulfilled "file content");
                 Edit "a"; Advance 799 ]
               (mount (Some "/repo/file.ts") []) in
  writes (run [Advance 1] s) = [(Some "/repo/file.ts", "a")] /\
  writes (run [Advance 1; Advance 5000] (unmount s)) = [].
Proof.
  intros s. split; [reflexivity |].
  apply (unmount_drops_pending_save s [Advance 1; Advance 5000]).
  - unfold reachable, s. eauto.
  - repeat constructor; intros H; exact H.
Defined.

(** ** The diff toggle *)

Lemma diffFetchEffect_off (s : State) : diffFetchEffect false s = s.
Proof. unfold diffFetchEffect. now destruct (openFilePath s). Qed.

(** X13. On a file of the changed set that is loaded and shown in the
    editor, the Diff button makes exactly one call, [getFileDiff] for the
    open path, and the spinner replaces the editor; when the diff arrives it
    is what is drawn; the Edit button then brings the buffer back as it was,
    without any call. *)
Theorem diff_toggle_round_trip (s : State) (p diff : string) :
  openFilePath s = Some p -> p <> "" -> p ∈ changedFiles s ->
  diffMode s = false -> fileLoading s = false -> diffLoading s = false ->
  let s1 := clickDiffMode true s in
  let s2 := resolve (nextId s) (Fulfilled diff) s1 in
  let s3 := clickDiffMode false s2 in
  editorArea s = ShowEditor (fileContent s) /\
  (calls s1 = calls s ++ [getFileDiff p] /\ editorArea s1 = Spinner) /\
  editorArea s2 = ShowDiff (DiffView diff) /\
  (calls s3 = calls s1 /\ editorArea s3 = ShowEditor (fileContent s) /\
   fileContent s3 = fileContent s /\ savedContent s3 = savedContent s).
Proof.
  intros Hopen Hp Hin Hmode Hfl Hdl s1 s2 s3.
  assert (Js.has (changedFiles s) p = true) as Hhas
    by now apply bool_decide_eq_true_2.
  pose proof (truthy_Some p Hp) as Htruthy.
  assert (s1 = call (getFileDiff p) (setDiffLoading true (setDiffMode true s)))
    as Hs1.
  { unfold s1, clickDiffMode. rewrite Hmode.
    rewrite decide_False by discriminate.
    unfold diffFetchEffect. simpl. now rewrite Hopen, Htruthy, Hhas. }
  assert (s2 = setDiffLoading false
                 (setDiffContent diff
                    (withPending (delete (nextId s) (pending s1)) s1)))
    as Hs2.
  { unfold s2, resolve. rewrite Hs1 at 1. simpl.
    now rewrite lookup_insert_eq. }
  assert (s3 = setDiffMode false s2) as Hs3.
  { assert (diffMode s2 = true) as Hm2 by now rewrite Hs2, Hs1.
    unfold s3, clickDiffMode. rewrite Hm2.
    rewrite decide_False by discriminate. apply diffFetchEffect_off. }
  split; [|split; [|split]].
  - unfold editorArea. now rewrite Hopen, Htruthy, Hfl, Hdl, Hmode.
  - rewrite Hs1. split; [reflexivity |].
    unfold editorArea. simpl. now rewrite Hopen, Htruthy, Hfl.
  - rewrite Hs2, Hs1. unfold editorArea. simpl.
    now rewrite Hopen, Htruthy, Hfl, Hhas.
  - rewrite Hs3, Hs2, Hs1. unfold editorArea. simpl.
    now rewrite Hopen, Htruthy, Hfl.
Qed.

Lemma diff_toggle_round_trip_witness :
  let s := run [ Settle 1%positive (Fulfilled "file content") ]
               (mount (Some "/repo/a.ts") ["/repo/a.ts"]) in
  let s2 := resolve (nextId s) (Fulfilled "+added") (clickDiffMode true s) in
  editorArea s2 = ShowDiff (DiffView "+added") /\
  editorArea (clickDiffMode false s2) = ShowEditor "file content".
Proof.
  intros s s2.
  destruct (diff_toggle_round_trip s "/repo/a.ts" "+added" eq_refl)
    as (_ & _ & Hdiff & _ & Hedit & _);
    try reflexivity; [discriminate | apply list_elem_of_here |].
  split; [exact Hdiff | exact Hedit].
Defined.

(** X14. While the diff of the open file is showing, every new changed set
    handed to the panel that still holds the file makes the panel fetch the
    diff again; a changed set that no longer holds the file makes no call
    and the editor comes back with the buffer, although [diffMode] stays
    on. *)
Theorem changed_set_update_in_diff_mode
    (s : State) (p : string) (cf : list string) :
  openFilePath s = Some p -> p <> "" -> diffMode s = true ->
  fileLoading s = false -> diffLoading s = false ->
  let s' := changedFilesChanged cf s in
  diffMode s' = true /\
  (p ∈ cf ->
   calls s' = calls s ++ [getFileDiff p] /\ editorArea s' = Spinner) /\
  (p ∉ cf ->
   calls s' = calls s /\ editorArea s' = ShowEditor (fileContent s)).
Proof.
  intros Hopen Hp Hmode Hfl Hdl s'.
  pose proof (truthy_Some p Hp) as Htruthy.
  unfold s', changedFilesChanged, diffFetchEffect. simpl.
  rewrite Hopen, Hmode, Htruthy. simpl. unfold Js.has.
  split; [now destruct (bool_decide (p ∈ cf)) |].
  split; intros Hin.
  - rewrite bool_decide_eq_true_2 by exact Hin. simpl.
    split; [reflexivity |].
    unfold editorArea. simpl. now rewrite Hopen, Htruthy, Hfl.
  - rewrite bool_decide_eq_false_2 by exact Hin. simpl.
    split; [reflexivity |].
    unfold editorArea, Js.has. simpl.
    rewrite Hopen, Htruthy, Hfl, Hdl, Hmode.
    now rewrite bool_decide_eq_false_2 by exact Hin.
Qed.

Lemma changed_set_update_in_diff_mode_witness :
  let s := run [ Settle 1%positive (Fulfilled "file content");
                 ClickDiffMode true; Settle 2%positive (Fulfilled "+added") ]
               (mount (Some "/repo/a.ts") ["/repo/a.ts"]) in
  editorArea s = ShowDiff (DiffView "+added") /\
  editorArea (changedFilesChanged [] s) = ShowEditor "file content" /\
  calls (changedFilesChanged ["/repo/b.ts"; "/repo/a.ts"] s)
    = calls s ++ [getFileDiff "/repo/a.ts"].
Proof.
  intros s. split; [reflexivity |]. split.
  - apply (changed_set_update_in_diff_mode s "/repo/a.ts" []);
      try reflexivity; [discriminate | intros H; inversion H].
  - apply (changed_set_update_in_diff_mode s "/repo/a.ts"
             ["/repo/b.ts"; "/repo/a.ts"]);
      try reflexivity; [discriminate |].
    apply list_elem_of_further, list_elem_of_here.
Defined.

(** ** Saves that land late *)

Lemma fire_all_no_save (l : list Timer) (s : State) :
  filter isSave l = [] ->
  pending (foldl fire s (cb <$> l)) = pending s /\
  nextId (foldl fire s (cb <$> l)) = nextId s.
Proof.
  revert s. induction l as [|x l IH]; intros s Hl; [now split |].
  rewrite filter_cons in Hl.
  destruct (decide (isSave x)) as [Hx|Hx]; [discriminate |].
  change (foldl fire s (cb <$> x :: l))
    with (foldl fire (fire s (cb x)) (cb <$> l)).
  destruct (IH (fire s (cb x)) Hl) as [-> ->].
  unfold isSave in Hx. destruct (cb x); [exfalso; now apply Hx | now split].
Qed.

Lemma fire_all_one_save (l : list Timer) (s : State) (t : Timer)
    (p : option string) (v : string) :
  filter isSave l = [t] -> cb t = SaveCb p v ->
  pending (foldl fire s (cb <$> l)) = <[nextId s := writeFile p v]> (pending s) /\
  nextId (foldl fire s (cb <$> l)) = Pos.succ (nextId s).
Proof.
  revert s. induction l as [|x l IH]; intros s Hl Hcb; [discriminate |].
  change (foldl fire s (cb <$> x :: l))
    with (foldl fire (fire s (cb x)) (cb <$> l)).
  rewrite filter_cons in Hl. destruct (decide (isSave x)) as [Hx|Hx].
  - injection Hl as -> Hl.
    destruct (fire_all_no_save l (fire s (cb t)) Hl) as [-> ->].
    rewrite Hcb. now split.
  - destruct (IH (fire s (cb x)) Hl Hcb) as [-> ->].
    unfold isSave in Hx. destruct (cb x); [exfalso; now apply Hx | now split].
Qed.

Lemma advance_fires_write (d : N) (s : State) (t : Timer)
    (p : option string) (v : string) :
  saveTimers s = [t] -> cb t = SaveCb p v -> due t <= clock s + d ->
  pending (advance d s) = <[nextId s := writeFile p v]> (pending s) /\
  nextId (advance d s) = Pos.succ (nextId s).
Proof.
  intros Hs Hcb Hdue. unfold advance. cbv zeta.
  destruct (fire_all_one_save
              (filter (fun t => due t <= clock s + d) (timers s))
              (withClock (clock s + d)
                 (withTimers (filter (fun t => clock s + d < due t) (timers s)) s))
              t p v) as [-> ->]; [|exact Hcb | now split].
  unfold saveTimers in Hs. rewrite filter_swap, Hs.
  now rewrite filter_cons_True by lia.
Qed.

Lemma write_fulfilled (s : State) (id : positive) (p : option string)
    (v x : string) :
  pending s !! id = Some (writeFile p v) ->
  savedContent (resolve id (Fulfilled x) s) = v /\
  saveStatus (resolve id (Fulfilled x) s) = Some saved /\
  fileContent (resolve id (Fulfilled x) s) = fileContent s /\
  openFilePath (resolve id (Fulfilled x) s) = openFilePath s.
Proof. intros Hp. unfold resolve. rewrite Hp. now repeat split. Qed.



(** X16. A save armed for one file is neither cancelled nor redirected by
    opening another file. After an edit on file p, if file q is opened and
    loaded within the 800 ms, the timer still fires: the edited value is
    written to p, and when that write succeeds the saved content of the
    panel, which now shows q, becomes the value written to p, so q counts
    as dirty unless its content happens to equal that value. *)
Theorem save_lands_after_file_switch (s : State) (p q v c : string) :
  reachable s -> openFilePath s = Some p -> p <> "" -> q <> p -> q <> "" ->
  let s1 := handleChange v s in
  let s2 := handleFileSelect q s1 in
  let s3 := resolve (nextId s1) (Fulfilled c) s2 in
  let s4 := advance SAVE_DELAY s3 in
  let s5 := resolve (nextId s3) (Fulfilled "") s4 in
  (openFilePath s3 = Some q /\ fileContent s3 = c /\ isDirty s3 = false) /\
  (writes s4 = writes s ++ [(Some p, v)] /\
   pending s4 !! nextId s3 = Some (writeFile (Some p) v)) /\
  (openFilePath s5 = Some q /\ fileContent s5 = c /\ savedContent s5 = v /\
   isDirty s5 = bool_decide (c <> v)).
Proof.
  intros Hreach Hopen Hp Hq Hqne s1 s2 s3 s4 s5.
  pose proof (reachable_consistent s Hreach) as Hc.
  assert (Js.truthy (openFilePath s) = true) as Htruthy
    by (rewrite Hopen; now apply truthy_Some).
  destruct (handleChange_armed v s (saves_by_ref s Hc) Htruthy)
    as (Harmed & _ & _).
  destruct (handleChange_frame v s)
    as (_ & _ & Hopen1 & _ & Hclock1 & _ & _ & _).
  fold s1 in Harmed, Hopen1, Hclock1. rewrite Hopen in *.
  assert (openFilePath s1 <> Some q) as Hother by (rewrite Hopen1; congruence).
  destruct (select_loads s1 q Hother Hqne) as (Hopen2 & _ & _ & _ & Hpend2).
  destruct (quiet_step_frame s1 (OpenFile (Some q)))
    as (Hsave2 & _ & Hclock2 & Hw2); [intros H; exact H | discriminate |].
  simpl in Hsave2, Hclock2, Hw2.
  fold (handleFileSelect q s1) in Hopen2, Hpend2, Hsave2, Hclock2, Hw2.
  fold s2 in Hopen2, Hpend2, Hsave2, Hclock2, Hw2.
  destruct (read_fulfilled s2 (nextId s1) q c Hpend2)
    as (Hbuf3 & Hsaved3 & Hdirty3 & _ & _ & Hopen3 & _).
  destruct (resolve_frame (nextId s1) (Fulfilled c) s2)
    as (Hsave3 & _ & Hclock3 & Hw3 & _).
  fold s3 in Hbuf3, Hsaved3, Hdirty3, Hopen3, Hsave3, Hclock3, Hw3.
  rewrite Hsave2, Harmed in Hsave3.
  assert (clock s3 = clock s) as Hclock by congruence.
  destruct (advance_past_due SAVE_DELAY s3 _ (Some p) v Hsave3 eq_refl)
    as [_ Hw4]; [simpl; lia |].
  destruct (advance_fires_write SAVE_DELAY s3 _ (Some p) v Hsave3 eq_refl)
    as [Hpend4 _]; [simpl; lia |].
  destruct (advance_frame SAVE_DELAY s3) as (_ & _ & _ & Hopen4 & Hbuf4 & _).
  fold s4 in Hw4, Hpend4, Hopen4, Hbuf4.
  assert (pending s4 !! nextId s3 = Some (writeFile (Some p) v)) as Hpend
    by (rewrite Hpend4; apply lookup_insert_eq).
  destruct (write_fulfilled s4 (nextId s3) (Some p) v "" Hpend)
    as (Hsaved5 & _ & Hbuf5 & Hopen5).
  fold s5 in Hsaved5, Hbuf5, Hopen5.
  split; [|split].
  - repeat split; congruence.
  - split; [|exact Hpend].
    rewrite Hw4, Hw3, Hw2. unfold s1. now rewrite writes_handleChange.
  - assert (openFilePath s5 = Some q) as Hq5 by congruence.
    assert (fileContent s5 = c) as Hc5 by congruence.
    repeat split; try assumption.
    unfold isDirty. rewrite Hsaved5, Hc5, Hq5.
    rewrite (bool_decide_eq_true_2 (Some q <> None)) by discriminate.
    apply andb_true_r.
Qed.

Lemma save_lands_after_file_switch_witness :
  let s := run [ Settle 1%positive (Fulfilled "content of a") ]
               (mount (Some "/repo/a.ts") []) in
  let s1 := handleChange "edited a" s in
  let s3 := resolve (nextId s1) (Fulfilled "content of b")
              (handleFileSelect "/repo/b.ts" s1) in
  let s4 := advance SAVE_DELAY s3 in
  let s5 := resolve (nextId s3) (Fulfilled "") s4 in
  writes s4 = [(Some "/repo/a.ts", "edited a")] /\
  openFilePath s5 = Some "/repo/b.ts" /\ fileContent s5 = "content of b" /\
  savedContent s5 = "edited a" /\ isDirty s5 = true.
Proof.
  intros s s1 s3 s4 s5.
  assert (reachable s) as Hreach by (unfold reachable, s; eauto).
  destruct (save_lands_after_file_switch s "/repo/a.ts" "/repo/b.ts"
              "edited a" "content of b" Hreach eq_refl)
    as (_ & (Hw & _) & (Hopen & Hbuf & Hsaved & Hdirty)); try discriminate.
  split; [exact Hw |]. split; [exact Hopen |]. split; [exact Hbuf |].
  split; [exact Hsaved | exact Hdirty].
Defined.

(** ** Opening the panel and its files *)

Lemma diffFetchEffect_ids (mode : bool) (s : State) (id : positive) :
  (nextId s <= nextId (diffFetchEffect mode s))%positive /\
  ((id < nextId s)%positive ->
   pending (diffFetchEffect mode s) !! id = pending s !! id).
Proof.
  unfold diffFetchEffect.
  destruct (openFilePath s) as [p|]; [|split; [lia | reflexivity]].
  destruct (negb mode || negb (Js.truthy (Some p))
            || negb (Js.has (changedFiles s) p));
    [split; [lia | reflexivity] |].
  simpl. split; [lia |]. intros Hid. now rewrite lookup_insert_ne by lia.
Qed.

Lemma select_ids (s : State) (path : string) (id : positive) :
  openFilePath s <> Some path -> path <> "" ->
  (nextId s < nextId (openFileChanged (Some path) s))%positive /\
  ((id < nextId s)%positive ->
   pending (openFileChanged (Some path) s) !! id = pending s !! id).
Proof.
  intros Hne Hpath. unfold openFileChanged.
  rewrite decide_False by congruence.
  unfold loadFileEffect.
  change (openFilePath (withOpenFilePath (Some path) s)) with (Some path).
  rewrite (truthy_Some path Hpath).
  change (negb true) with false. cbv iota.
  match goal with
  | |- context [diffFetchEffect ?m ?s0] =>
      destruct (diffFetchEffect_ids m s0 id) as [Hle Hkeep]
  end.
  simpl in Hle, Hkeep. cbv zeta. split; [lia |].
  intros Hid. rewrite Hkeep by lia. simpl.
  now rewrite lookup_insert_ne by lia.
Qed.

(** X18. The content of a file is put in the buffer whenever its read
    arrives, whatever file is open by then. When two files are selected one
    after the other and the content of the first arrives after the content
    of the second, the panel is on the second file but buffer and saved
    content hold the content of the first, and the file counts as clean. *)
Theorem late_read_fills_buffer (s : State) (q1 q2 c1 c2 : string) :
  openFilePath s <> Some q1 -> q1 <> "" -> q2 <> q1 -> q2 <> "" ->
  let s1 := handleFileSelect q1 s in
  let s2 := handleFileSelect q2 s1 in
  let s3 := resolve (nextId s1) (Fulfilled c2) s2 in
  let s4 := resolve (nextId s) (Fulfilled c1) s3 in
  (openFilePath s3 = Some q2 /\ fileContent s3 = c2) /\
  (openFilePath s4 = Some q2 /\ fileContent s4 = c1 /\
   savedContent s4 = c1 /\ isDirty s4 = false /\ fileLoading s4 = false).
Proof.
  intros Hne1 Hq1 Hne2 Hq2 s1 s2 s3 s4.
  destruct (select_loads s q1 Hne1 Hq1) as (Hopen1 & _ & _ & _ & Hpend1).
  destruct (select_ids s q1 1%positive Hne1 Hq1) as [Hlt _].
  fold (handleFileSelect q1 s) in Hopen1, Hpend1, Hlt.
  fold s1 in Hopen1, Hpend1, Hlt.
  assert (openFilePath s1 <> Some q2) as Hother
    by (rewrite Hopen1; congruence).
  destruct (select_loads s1 q2 Hother Hq2) as (Hopen2 & _ & _ & _ & Hpend2).
  destruct (select_ids s1 q2 (nextId s) Hother Hq2) as [_ Hkeep].
  fold (handleFileSelect q2 s1) in Hopen2, Hpend2, Hkeep.
  fold s2 in Hopen2, Hpend2, Hkeep.
  destruct (read_fulfilled s2 (nextId s1) q2 c2 Hpend2)
    as (Hbuf3 & _ & _ & _ & _ & Hopen3 & _).
  fold s3 in Hbuf3, Hopen3.
  assert (pending s3 !! nextId s = Some (readFile q1)) as Hpend3.
  { unfold s3, resolve. rewrite Hpend2. simpl.
    rewrite lookup_delete_ne by lia. rewrite (Hkeep Hlt). exact Hpend1. }
  destruct (read_fulfilled s3 (nextId s) q1 c1 Hpend3)
    as (Hbuf4 & Hsaved4 & Hdirty4 & Hload4 & _ & Hopen4 & _).
  fold s4 in Hbuf4, Hsaved4, Hdirty4, Hload4, Hopen4.
  split; [split; congruence |].
  repeat split; congruence.
Qed.

Lemma late_read_fills_buffer_witness :
  let s := mount None [] in
  let s1 := handleFileSelect "/repo/a.ts" s in
  let s2 := handleFileSelect "/repo/b.ts" s1 in
  let s4 := resolve (nextId s) (Fulfilled "content of a")
              (resolve (nextId s1) (Fulfilled "content of b") s2) in
  openFilePath s4 = Some "/repo/b.ts" /\ fileContent s4 = "content of a" /\
  savedContent s4 = "content of a" /\ isDirty s4 = false /\
  fileLoading s4 = false.
Proof.
  apply (late_read_fills_buffer (mount None []) "/repo/a.ts" "/repo/b.ts"
           "content of a" "content of b"); discriminate.
Defined.

(** X19. The empty string as open path counts as no file at all: taking
    it as the open file makes no call and leaves the placeholder, an edit
    arms no timer, nothing short of another edit leads to a write, and
    the editor gets no language. *)
Theorem empty_path_is_no_file (s : State) (value : string) (darkMode : bool) :
  reachable s -> openFilePath s <> Some "" ->
  let s1 := step s (OpenFile (Some "")) in
  (calls s1 = calls s /\ editorArea s1 = Placeholder /\ diffMode s1 = false) /\
  (saveTimers (handleChange value s1) = [] /\
   forall es, Forall (fun e => ~ isEdit e) es ->
              writes (run es (handleChange value s1)) = writes s) /\
  extensions darkMode (Some "")
    = [warmTheme] ++ (if darkMode then [oneDark] else []).
Proof.
  intros Hreach Hne s1.
  assert (s1 = setDiffMode false (withOpenFilePath (Some "") s)) as Hs1.
  { unfold s1. simpl. unfold openFileChanged.
    rewrite decide_False by congruence.
    unfold loadFileEffect, diffFetchEffect. simpl.
    now destruct (diffMode s). }
  assert (reachable s1) as Hreach1 by now apply reachable_step.
  pose proof (reachable_consistent s1 Hreach1) as Hc1.
  assert (Js.truthy (openFilePath s1) = false) as Hfalsy by now rewrite Hs1.
  destruct (handleChange_unarmed value s1 (saves_by_ref s1 Hc1) Hfalsy)
    as (Hnone & _).
  split; [now rewrite Hs1 |]. split; [|now destruct darkMode].
  split; [exact Hnone |].
  intros es Hes.
  destruct (run_idle es (handleChange value s1) Hes Hnone) as (_ & -> & _).
  rewrite writes_handleChange. now rewrite Hs1.
Qed.

Lemma empty_path_is_no_file_witness :
  let s1 := step (mount (Some "/repo/a.ts") []) (OpenFile (Some "")) in
  editorArea s1 = Placeholder /\
  writes (run [Advance 800] (handleChange "x" s1)) = [].
Proof.
  intros s1.
  assert (reachable (mount (Some "/repo/a.ts") [])) as Hreach
    by (exists (Some "/repo/a.ts"), [], []; reflexivity).
  destruct (empty_path_is_no_file (mount (Some "/repo/a.ts") []) "x" false
              Hreach) as ((_ & Harea & _) & (_ & Hrun) & _); [discriminate |].
  split; [exact Harea |].
  apply (Hrun [Advance 800]). repeat constructor. intros H; exact H.
Defined.

(** ** The order of the sidebar list *)

(** X20. With a consistent comparator that tells the labels of the changed
    paths apart (no two different paths of the set have labels that
    compare as equal), the sidebar list does not depend on the order in
    which the paths were added to the set. *)
Theorem sidebar_list_ignores_insertion_order
    (localeCompare : string -> string -> Z)
    (changedFiles changedFiles' : list string) (cwd : string) :
  (forall a b, (0 < localeCompare a b)%Z -> (localeCompare b a <= 0)%Z) ->
  (forall a b c,
     (localeCompare a b <= 0)%Z -> (localeCompare b c <= 0)%Z ->
     (localeCompare a c <= 0)%Z) ->
  (forall x y,
     x ∈ changedFiles -> y ∈ changedFiles ->
     (localeCompare (rel (relativeEntry cwd x)) (rel (relativeEntry cwd y))
        <= 0)%Z ->
     (localeCompare (rel (relativeEntry cwd y)) (rel (relativeEntry cwd x))
        <= 0)%Z ->
     x = y) ->
  changedFiles ≡ₚ changedFiles' ->
  relativeChangedFiles localeCompare changedFiles (Some cwd)
    = relativeChangedFiles localeCompare changedFiles' (Some cwd).
Proof.
  intros Hswap Htrans Hapart Hperm.
  destruct (decide (cwd = "")) as [->|Hcwd].
  { unfold relativeChangedFiles. simpl. now rewrite !orb_true_r. }
  rewrite !relativeChangedFiles_sort by exact Hcwd.
  set (cmp := fun a b : ChangedEntry => localeCompare (rel a) (rel b)).
  apply (StronglySorted_unique_strong (fun a b => (cmp a b <= 0)%Z)).
  - intros e1 e2 H1 H2 H12 H21.
    rewrite sort_perm in H1, H2. rewrite <- Hperm in H2.
    apply list_elem_of_fmap in H1 as (x & -> & Hx).
    apply list_elem_of_fmap in H2 as (y & -> & Hy).
    f_equal. now apply Hapart.
  - apply sort_sorted; unfold cmp; eauto.
  - apply sort_sorted; unfold cmp; eauto.
  - rewrite !sort_perm. now rewrite Hperm.
Qed.

Lemma sidebar_list_ignores_insertion_order_witness :
  relativeChangedFiles foldCompare ["/repo/Z.ts"; "/other/x"; "/repo/a.ts"]
    (Some "/repo")
  = relativeChangedFiles foldCompare ["/repo/a.ts"; "/repo/Z.ts"; "/other/x"]
      (Some "/repo").
Proof.
  apply (sidebar_list_ignores_insertion_order foldCompare).
  - apply foldCompare_swap.
  - apply foldCompare_trans.
  - intros x y Hx Hy.
    repeat (apply elem_of_cons in Hx as [->|Hx]);
      repeat (apply elem_of_cons in Hy as [->|Hy]);
      try (inversion Hx); try (inversion Hy);
      try reflexivity; vm_compute; intros H1 H2; exfalso;
      (now apply H1) || (now apply H2).
  - apply Permutation_cons_app with (l1 := ["/repo/a.ts"]) (l2 := ["/other/x"]).
    apply perm_swap.
Defined.

(** ** The course of the status during a save *)

Lemma diffFetchEffect_calm (mode : bool) (s : State) :
  saveStatus (diffFetchEffect mode s) = saveStatus s /\
  statusTrace (diffFetchEffect mode s) = statusTrace s /\
  timers (diffFetchEffect mode s) = timers s /\
  clock (diffFetchEffect mode s) = clock s /\
  (nextId s <= nextId (diffFetchEffect mode s))%positive /\
  (forall id p v,
     pending (diffFetchEffect mode s) !! id = Some (writeFile p v) ->
     pending s !! id = Some (writeFile p v)) /\
  (forall id,
     (id < nextId s)%positive ->
     pending (diffFetchEffect mode s) !! id = pending s !! id).
Proof.
  unfold diffFetchEffect.
  destruct (openFilePath s) as [q|];
    [|repeat split; auto; lia].
  destruct (negb mode || negb (Js.truthy (Some q))
            || negb (Js.has (changedFiles s) q));
    [repeat split; auto; lia |].
  simpl. repeat split; try lia.
  - intros id p v. destruct (decide (id = nextId s)) as [->|Hne].
    + rewrite lookup_insert_eq. discriminate.
    + now rewrite lookup_insert_ne by congruence.
  - intros id Hid. now rewrite lookup_insert_ne by lia.
Qed.

Lemma resolve_other (id : positive) (o : Settled) (s : State) :
  (forall p v, pending s !! id <> Some (writeFile p v)) ->
  saveStatus (resolve id o s) = saveStatus s /\
  statusTrace (resolve id o s) = statusTrace s /\
  timers (resolve id o s) = timers s /\
  clock (resolve id o s) = clock s /\
  nextId (resolve id o s) = nextId s /\
  (forall j p v,
     pending (resolve id o s) !! j = Some (writeFile p v) ->
     pending s !! j = Some (writeFile p v)) /\
  (forall j p v,
     pending s !! j = Some (writeFile p v) ->
     pending (resolve id o s) !! j = Some (writeFile p v)).
Proof.
  intros Hnot. unfold resolve.
  destruct (pending s !! id) as [r|] eqn:Hr; [|now repeat split].
  assert (forall j p v,
            delete id (pending s) !! j = Some (writeFile p v) <->
            pending s !! j = Some (writeFile p v)) as Hdel.
  { intros j p v. destruct (decide (j = id)) as [->|Hne].
    - rewrite lookup_delete_eq, Hr. split; [discriminate |].
      intros H. exfalso. now apply (Hnot p v).
    - now rewrite lookup_delete_ne by congruence. }
  destruct r as [q|q x|q]; [|exfalso; now apply (Hnot q x) |];
    destruct o; simpl; repeat split; intros j p v; apply Hdel.
Qed.

Lemma neutral_step_phase
    (trace : list (option SaveStatus)) (path value : string) (deadline : N)
    (ph : Phase) (s s' : State) :
  saveStatus s' = saveStatus s -> statusTrace s' = statusTrace s ->
  timers s' = timers s -> clock s' = clock s ->
  (nextId s <= nextId s')%positive ->
  (forall j p v,
     pending s' !! j = Some (writeFile p v) ->
     pending s !! j = Some (writeFile p v)) ->
  (forall j p v,
     (j < nextId s)%positive ->
     pending s !! j = Some (writeFile p v) ->
     pending s' !! j = Some (writeFile p v)) ->
  inPhase trace path value deadline ph s ->
  inPhase trace path value deadline ph s'.
Proof.
  intros Hst Htr Ht Hc Hn Hnew Hkept.
  assert (forall w, onlyWrite w s -> onlyWrite w s') as Honly.
  { intros w Hw j p v Hj. apply (Hw j p v). now apply Hnew. }
  destruct ph as [|w|until|since|]; simpl; rewrite Hst, Htr, Ht, Hc.
  - intros (H1 & H2 & H3 & H4 & H5). repeat split; auto.
  - intros (H1 & H2 & H3 & H4 & H5 & H6 & H7).
    repeat split; auto; lia.
  - intros (H1 & H2 & H3 & H4 & H5 & H6). repeat split; auto.
  - intros (H1 & H2 & H3 & H4 & H5 & H6). repeat split; auto.
  - intros (H1 & H2 & H3 & H4 & H5). repeat split; auto.
Qed.

Lemma withClock_phase_fields (n : N) (s : State) :
  saveStatus (withClock n s) = saveStatus s /\
  statusTrace (withClock n s) = statusTrace s /\
  timers (withClock n s) = timers s /\
  pending (withClock n s) = pending s /\
  nextId (withClock n s) = nextId s /\ clock (withClock n s) = n.
Proof. now repeat split. Qed.

Lemma advance_phase
    (trace : list (option SaveStatus)) (path value : string) (deadline : N)
    (ph : Phase) (s : State) (d : N) :
  inPhase trace path value deadline ph s ->
  inPhase trace path value deadline
    (phaseStep deadline s ph (Advance d)) (advance d s).
Proof.
  destruct ph as [|w|until|since|]; simpl.
  - intros (Hst & Htr & (id & Ht) & Hclock & Hw).
    destruct (decide (clock s + d < deadline)) as [Hd|Hd].
    + rewrite (advance_single_wait d s _ Ht) by (simpl; lia). simpl.
      repeat split; eauto.
    + rewrite (advance_single_due d s _ Ht) by (simpl; lia). simpl.
      rewrite Hst, Htr. repeat split; try lia.
      * apply lookup_insert_eq.
      * intros j p v. simpl. destruct (decide (j = nextId s)) as [->|Hne];
          [reflexivity |].
        rewrite lookup_insert_ne by congruence. intros Hj.
        now apply Hw in Hj.
  - intros (Hst & Htr & Ht & Hdl & Hp & Hw & Hlt).
    rewrite (advance_idle d s Ht). simpl. repeat split; auto. lia.
  - intros (Hst & Htr & (id & Ht) & Hdl & Hclock & Hw).
    destruct (decide (clock s + d < until)) as [Hd|Hd].
    + rewrite (advance_single_wait d s _ Ht) by (simpl; lia). simpl.
      repeat split; eauto. lia.
    + rewrite (advance_single_due d s _ Ht) by (simpl; lia). simpl.
      rewrite Hst, Htr, <- app_assoc. repeat split; auto; lia.
  - intros (Hst & Htr & Ht & Hdl & Hsince & Hw).
    rewrite (advance_idle d s Ht). simpl. repeat split; auto; lia.
  - intros (Hst & Htr & Ht & Hdl & Hw).
    rewrite (advance_idle d s Ht). simpl. repeat split; auto. lia.
Qed.

Lemma settle_phase
    (trace : list (option SaveStatus)) (path value : string) (deadline : N)
    (ph : Phase) (s : State) (id : positive) (o : Settled) :
  inPhase trace path value deadline ph s ->
  inPhase trace path value deadline
    (phaseStep deadline s ph (Settle id o)) (resolve id o s).
Proof.
  intros Hph.
  assert (forall w, onlyWrite w s -> w <> Some id ->
                    inPhase trace path value deadline ph (resolve id o s))
    as Hother.
  { intros w Hw Hne.
    destruct (resolve_other id o s) as (H1 & H2 & H3 & H4 & H5 & H6 & H7).
    { intros p v Hp. apply Hne. now apply (Hw id p v). }
    apply (neutral_step_phase trace path value deadline ph s); auto.
    rewrite H5. lia. }
  destruct ph as [|w|until|since|]; simpl in *;
    try (apply (Hother None); [tauto | discriminate]).
  destruct (decide (id = w)) as [->|Hne];
    [|apply (Hother (Some w)); [tauto | congruence]].
  destruct Hph as (Hst & Htr & Ht & Hdl & Hp & Hw & Hlt).
  assert (onlyWrite None (withPending (delete w (pending s)) s)) as Hnone.
  { intros j p v. simpl. destruct (decide (j = w)) as [->|Hj].
    - rewrite lookup_delete_eq. discriminate.
    - rewrite lookup_delete_ne by congruence. intros H.
      apply Hw in H. congruence. }
  unfold resolve. rewrite Hp. destruct o as [x|]; simpl.
  - rewrite Hst, Htr, Ht, <- app_assoc. simpl.
    repeat split; eauto. unfold SAVED_DISPLAY. lia.
  - rewrite Hst, Htr, <- app_assoc. simpl. repeat split; auto.
Qed.

Lemma step_phase
    (trace : list (option SaveStatus)) (path value : string) (deadline : N)
    (ph : Phase) (s : State) (e : Event) :
  calm e ->
  inPhase trace path value deadline ph s ->
  inPhase trace path value deadline (phaseStep deadline s ph e) (step s e).
Proof.
  intros Hcalm Hph. destruct e as [q|cf|x|b|d|id o].
  - contradiction.
  - replace (phaseStep deadline s ph (ChangedFiles cf)) with ph
      by now destruct ph.
    simpl. unfold changedFilesChanged.
    destruct (diffFetchEffect_calm (diffMode s) (withChangedFiles cf s))
      as (H1 & H2 & H3 & H4 & H5 & H6 & H7).
    apply (neutral_step_phase trace path value deadline ph s); auto.
    intros j p v Hj Hp. now rewrite (H7 j Hj).
  - contradiction.
  - replace (phaseStep deadline s ph (ClickDiffMode b)) with ph
      by now destruct ph.
    simpl. unfold clickDiffMode. case_decide; [exact Hph |].
    destruct (diffFetchEffect_calm b (setDiffMode b s))
      as (H1 & H2 & H3 & H4 & H5 & H6 & H7).
    apply (neutral_step_phase trace path value deadline ph s); auto.
    intros j p v Hj Hp. now rewrite (H7 j Hj).
  - now apply advance_phase.
  - now apply settle_phase.
Qed.

Lemma run_phase
    (trace : list (option SaveStatus)) (path value : string) (deadline : N)
    (es : list Event) :
  forall (ph : Phase) (s : State),
    Forall calm es ->
    inPhase trace path value deadline ph s ->
    inPhase trace path value deadline (phaseRun deadline s ph es) (run es s).
Proof.
  induction es as [|e es IH]; intros ph s Hes Hph; [exact Hph |].
  apply Forall_cons in Hes as [He Hes].
  apply (IH _ (step s e) Hes). now apply step_phase.
Qed.

Lemma edit_enters_waiting (s : State) (path value : string) :
  Consistent s -> atRest s -> openFilePath s = Some path -> path <> "" ->
  inPhase (statusTrace (handleChange value s)) path value
    (clock s + SAVE_DELAY) waiting (handleChange value s).
Proof.
  intros Hc [Hall Hnone] Hopen Hp.
  assert (Js.truthy (openFilePath s) = true) as Htruthy
    by (rewrite Hopen; now apply truthy_Some).
  pose proof (handleChange_only_timer value s Hc Hall Htruthy) as Ht.
  destruct (handleChange_frame value s)
    as (_ & Hst & _ & _ & Hclock & _ & Hpend & _).
  rewrite Hopen in Ht. simpl.
  split; [exact Hst |]. split; [reflexivity |].
  split; [eauto |]. split; [rewrite Hclock; unfold SAVE_DELAY; lia |].
  intros j p v. rewrite Hpend. apply Hnone.
Qed.

Lemma phase_of_pending_write
    (trace : list (option SaveStatus)) (path value : string) (deadline : N)
    (ph : Phase) (s : State) (w : positive) (q : option string) (x : string) :
  inPhase trace path value deadline ph s ->
  pending s !! w = Some (writeFile q x) ->
  ph = inFlight w /\ q = Some path /\ x = value.
Proof.
  intros Hph Hw.
  assert (onlyWrite None s -> False) as Hnone.
  { intros Honly. now apply Honly in Hw. }
  destruct ph as [|w'|until|since|]; simpl in Hph;
    try (exfalso; apply Hnone; tauto).
  destruct Hph as (_ & _ & _ & _ & Hp & Honly & _).
  assert (Some w' = Some w) as Heq by exact (Honly w q x Hw).
  injection Heq as ->. rewrite Hp in Hw. injection Hw as <- <-.
  now repeat split.
Qed.

Lemma phaseStep_after_success (deadline until : N) (s : State) (ph : Phase)
    (e : Event) :
  ph = showing until \/ ph = cleared until ->
  phaseStep deadline s ph e = showing until \/
  phaseStep deadline s ph e = cleared until.
Proof.
  intros [-> | ->]; destruct e; simpl; auto. case_decide; auto.
Qed.

Lemma run_after_success
    (trace : list (option SaveStatus)) (path value : string)
    (deadline until : N) (es : list Event) :
  forall (ph : Phase) (s : State),
    ph = showing until \/ ph = cleared until ->
    Forall calm es ->
    inPhase trace path value deadline ph s ->
    (clock (run es s) < until ->
       inPhase trace path value deadline (showing until) (run es s)) /\
    (until <= clock (run es s) ->
       inPhase trace path value deadline (cleared until) (run es s)).
Proof.
  induction es as [|e es IH]; intros ph s Hcase Hes Hph.
  - destruct Hcase as [-> | ->]; (split; [|]); intros Hclock; try exact Hph;
      simpl in Hph, Hclock; exfalso; decompose [and] Hph; lia.
  - apply Forall_cons in Hes as [He Hes].
    apply (IH (phaseStep deadline s ph e) (step s e)); [| exact Hes |].
    + now apply phaseStep_after_success.
    + now apply step_phase.
Qed.

Lemma reachable_run (es : list Event) (s : State) :
  reachable s -> reachable (run es s).
Proof.
  revert s. induction es as [|e es IH]; intros s Hs; [exact Hs |].
  apply (IH (step s e)). now apply reachable_step.
Qed.

(** Why the course of the status asks for a panel at rest. The write of an
    earlier edit is still pending when the next edit comes; it succeeds
    100 ms later, inside the debounce window, and its display timer fires
    1300 ms after the write of the later edit has succeeded: the status
    goes dirty, saved, saving, saved, none, and saved stands for 1300 ms. *)
Lemma earlier_write_breaks_course :
  let s := run [ Settle 1%positive (Fulfilled "file content");
                 Edit "a"; Advance 800 ]
               (mount (Some "/repo/file.ts") []) in
  let s1 := handleChange "b" s in
  let s2 := run [ Advance 100; Settle 3%positive (Fulfilled "");
                  Advance 700 ] s1 in
  let s3 := resolve 6%positive (Fulfilled "") s2 in
  timers s = [] /\
  pending s !! 3%positive = Some (writeFile (Some "/repo/file.ts") "a") /\
  pending s2 !! 6%positive = Some (writeFile (Some "/repo/file.ts") "b") /\
  statusTrace s3 = statusTrace s1 ++ [Some saved; Some saving; Some saved] /\
  saveStatus (advance 1299 s3) = Some saved /\
  saveStatus (advance 1300 s3) = None.
Proof. now vm_compute. Qed.

(** C1, amended. On a panel with a file open, an edit puts the value in the
    buffer, sets the status to dirty, and leaves exactly one debounce timer
    in the queue, armed for 800 ms later with the open path and the value of
    this edit. As long as no further edit comes, whatever else happens on
    the mounted panel, no write is made before the 800 ms are over, and once
    they are over exactly one write has been made, for that path with that
    value; after a burst of edits less than 800 ms apart and the window,
    that one write carries the value of the last edit; when the panel is
    unmounted inside the window, the write is never made.

    The course of the status needs more. When, at the edit, no timer of the
    status display is in the queue and no write is pending, then under every
    schedule of the other events that has no further edit and no change of
    the open file: the status is dirty, with nothing added to its trace,
    until the 800 ms are over; from then on the trace continues with saving;
    while the write is pending the status is saving and the write is the one
    of this edit; from the moment the write succeeds the status is saved for
    2000 ms and none from then on, the trace being saving, saved and then
    saving, saved, none; at every moment the save is in the phase the
    schedule leads to. *)
Theorem debounced_save (s : State) (p value : string) :
  reachable s -> openFilePath s = Some p -> p <> "" ->
  let s1 := handleChange value s in
  let deadline := clock s + SAVE_DELAY in
  (SAVE_DELAY = 800 /\ SAVED_DISPLAY = 2000) /\
  (fileContent s1 = value /\ saveStatus s1 = Some dirty /\
   saveTimerRef s1 = Some (nextId s) /\
   saveTimers s1 =
     [ {| tid := nextId s; due := deadline; cb := SaveCb (Some p) value |} ] /\
   writes s1 = writes s) /\
  (forall es,
     Forall (fun e => ~ isEdit e) es ->
     (clock (run es s1) < deadline ->
        saveTimers (run es s1) = saveTimers s1 /\
        writes (run es s1) = writes s) /\
     (deadline <= clock (run es s1) ->
        saveTimers (run es s1) = [] /\
        writes (run es s1) = writes s ++ [(Some p, value)])) /\
  (forall edits,
     Forall (fun e => e.1 < SAVE_DELAY) edits ->
     writes (advance SAVE_DELAY (run (typing edits) s1))
       = writes s ++ [(Some p, lastValue value edits)]) /\
  (forall es1 es2,
     Forall (fun e => ~ isEdit e) es1 -> Forall (fun e => ~ isEdit e) es2 ->
     clock (run es1 s1) < deadline ->
     writes (run es2 (unmount (run es1 s1))) = writes s) /\
  (atRest s ->
   (forall es,
      Forall calm es ->
      inPhase (statusTrace s1) p value deadline
        (phaseRun deadline s1 waiting es) (run es s1) /\
      (clock (run es s1) < deadline ->
         saveStatus (run es s1) = Some dirty /\
         statusTrace (run es s1) = statusTrace s1) /\
      (deadline <= clock (run es s1) ->
         exists rest,
           statusTrace (run es s1) = statusTrace s1 ++ Some saving :: rest) /\
      (forall w q x,
         pending (run es s1) !! w = Some (writeFile q x) ->
         q = Some p /\ x = value /\
         saveStatus (run es s1) = Some saving /\
         statusTrace (run es s1) = statusTrace s1 ++ [Some saving] /\
         forall r es2,
           Forall calm es2 ->
           let s2 := resolve w (Fulfilled r) (run es s1) in
           (clock (run es2 s2) < clock s2 + SAVED_DISPLAY ->
              saveStatus (run es2 s2) = Some saved /\
              statusTrace (run es2 s2)
                = statusTrace s1 ++ [Some saving; Some saved]) /\
           (clock s2 + SAVED_DISPLAY <= clock (run es2 s2) ->
              saveStatus (run es2 s2) = None /\
              statusTrace (run es2 s2)
                = statusTrace s1 ++ [Some saving; Some saved; None]))) /\
   (forall latency, saveCourse latency value s)).
Proof.
  intros Hreach Hopen Hp s1 deadline.
  pose proof (reachable_consistent s Hreach) as Hc.
  assert (Js.truthy (openFilePath s) = true) as Htruthy
    by (rewrite Hopen; now apply truthy_Some).
  destruct (handleChange_armed value s (saves_by_ref s Hc) Htruthy)
    as (Harmed & Href & _).
  destruct (handleChange_frame value s)
    as (Hbuf & Hst & _ & _ & Hclock & _ & _ & _).
  rewrite Hopen in Harmed.
  split; [now split |].
  split; [|split; [|split; [|split]]].
  - repeat split; try assumption. apply writes_handleChange.
  - intros es Hes. now apply edit_then_run.
  - intros edits Hgaps. now apply typing_single_write.
  - intros es1 es2 Hes1 Hes2 Hclock1.
    assert (reachable (run es1 s1)) as Hreach1.
    { apply reachable_run. now apply (reachable_step _ (Edit value)). }
    destruct (unmount_cancels _ (reachable_consistent _ Hreach1))
      as [Hnone Hw].
    destruct (run_idle es2 _ Hes2 Hnone) as (_ & -> & _). rewrite Hw.
    now apply (edit_then_run s p value es1 Hc Hopen Hp Hes1).
  - intros Hrest. split; [|intros latency; apply save_course; auto;
                            apply Hrest].
    intros es Hes.
    pose proof (run_phase _ _ _ _ es waiting s1 Hes
                  (edit_enters_waiting s p value Hc Hrest Hopen Hp)) as Hph.
    fold s1 deadline in Hph.
    split; [exact Hph |]. split; [|split].
    + intros Hlt.
      destruct (phaseRun deadline s1 waiting es); simpl in Hph;
        decompose [and] Hph; try lia. now split.
    + intros Hle.
      destruct (phaseRun deadline s1 waiting es); simpl in Hph;
        decompose [and] Hph; try lia; eauto.
    + intros w q x Hw.
      destruct (phase_of_pending_write _ _ _ _ _ _ _ _ _ Hph Hw)
        as (Heq & -> & ->).
      rewrite Heq in Hph.
      split; [reflexivity |]. split; [reflexivity |].
      split; [apply Hph |]. split; [apply Hph |].
      intros r es2 Hes2 s2.
      pose proof (settle_phase _ _ _ _ _ _ w (Fulfilled r) Hph) as Hph2.
      simpl in Hph2. rewrite decide_True in Hph2 by reflexivity.
      fold s2 in Hph2.
      assert (clock s2 = clock (run es s1)) as Hclock2.
      { unfold s2, resolve. rewrite Hw. reflexivity. }
      rewrite Hclock2.
      destruct (run_after_success _ _ _ _ _ es2 _ s2 (or_introl eq_refl)
                  Hes2 Hph2) as [Hshow Hclear].
      split; intros Hcmp.
      * apply Hshow in Hcmp. simpl in Hcmp. split; apply Hcmp.
      * apply Hclear in Hcmp. simpl in Hcmp. split; apply Hcmp.
Qed.

Lemma debounced_save_witness :
  let s := run [ Settle 1%positive (Fulfilled "file content") ]
               (mount (Some "/repo/file.ts") ["/repo/file.ts"]) in
  let s1 := handleChange "x" s in
  let es := [ Advance 300; ClickDiffMode true; Advance 500; Advance 150 ] in
  let s2 := resolve 4%positive (Fulfilled "") (run es s1) in
  atRest s /\
  writes (run [Advance 799] s1) = [] /\
  writes (run [Advance 800] s1) = [(Some "/repo/file.ts", "x")] /\
  writes (advance SAVE_DELAY
            (run (typing [(120, "xy"); (799, "xyz")]) s1))
    = [(Some "/repo/file.ts", "xyz")] /\
  writes (run [Advance 5000] (unmount (run [Advance 799] s1))) = [] /\
  saveStatus (run [Advance 300; ClickDiffMode true; Advance 499] s1)
    = Some dirty /\
  pending (run es s1) !! 4%positive
    = Some (writeFile (Some "/repo/file.ts") "x") /\
  saveStatus (run es s1) = Some saving /\
  saveStatus (run [Settle 3%positive Rejected; Advance 1999] s2)
    = Some saved /\
  saveStatus (run [Advance 1000; Advance 1000] s2) = None /\
  statusTrace (run [Advance 1000; Advance 1000] s2)
    = statusTrace s1 ++ [Some saving; Some saved; None].
Proof.
  intros s s1 es s2.
  assert (reachable s) as Hreach by (unfold reachable, s; eauto).
  assert (atRest s) as Hrest.
  { split; [constructor |]. intros id p v H. vm_compute in H. discriminate. }
  assert (Forall calm es) as Hes by (repeat constructor).
  assert (pending (run es s1) !! 4%positive
            = Some (writeFile (Some "/repo/file.ts") "x")) as Hw
    by reflexivity.
  destruct (debounced_save s "/repo/file.ts" "x" Hreach eq_refl)
    as (_ & _ & Hrun & Htyping & Hunmount & Hstatus); [discriminate |].
  destruct (Hstatus Hrest) as [Hcourse _].
  destruct (Hcourse es Hes) as (_ & _ & _ & Hwrite).
  destruct (Hwrite _ _ _ Hw) as (_ & _ & Hsaving & _ & Hafter).
  split; [exact Hrest |].
  split; [|split; [|split; [|split; [|split; [|split; [|split;
    [|split; [|split]]]]]]]].
  - apply (Hrun [Advance 799]).
    + repeat constructor. intros H; exact H.
    + vm_compute. reflexivity.
  - apply (Hrun [Advance 800]).
    + repeat constructor. intros H; exact H.
    + vm_compute. discriminate.
  - apply (Htyping [(120, "xy"); (799, "xyz")]).
    repeat constructor.
  - apply (Hunmount [Advance 799] [Advance 5000]).
    + repeat constructor. intros H; exact H.
    + repeat constructor. intros H; exact H.
    + vm_compute. reflexivity.
  - apply (Hcourse [Advance 300; ClickDiffMode true; Advance 499]).
    + repeat constructor.
    + vm_compute. reflexivity.
  - exact Hw.
  - exact Hsaving.
  - apply (Hafter "" [Settle 3%positive Rejected; Advance 1999]).
    + repeat constructor.
    + vm_compute. reflexivity.
  - apply (Hafter "" [Advance 1000; Advance 1000]).
    + repeat constructor.
    + vm_compute. discriminate.
  - apply (Hafter "" [Advance 1000; Advance 1000]).
    + repeat constructor.
    + vm_compute. discriminate.
Defined.
